(** * Duplicate cleaner: the detection funnel and the deletion planner

    A shallow embedding of [duplicate_cleaner.py].  The filesystem is an
    explicit argument of every function that touches it; a Python call that
    may raise returns a [result]; a [defaultdict(list)] is an association
    list kept in insertion order, as a Python [dict] is. *)

From Stdlib Require Import Strings.Ascii Strings.String Strings.Byte.
From Stdlib Require Import ZArith List Bool Lia.
From Stdlib Require Import Permutation Sorted QArith.
Import ListNotations.
Local Open Scope Z_scope.
Local Open Scope list_scope.

(** ** Exceptions *)

Inductive exn : Type :=
| OSError
| IndexError
| ZeroDivisionError
| UnicodeEncodeError.

Inductive result (A : Type) : Type :=
| Ok (a : A)
| Raise (e : exn).
Arguments Ok {A} a.
Arguments Raise {A} e.

Definition bind {A B} (r : result A) (k : A -> result B) : result B :=
  match r with
  | Ok a => k a
  | Raise e => Raise e
  end.

Notation "x <- r ;; k" := (bind r (fun x => k))
  (at level 61, r at next level, right associativity).

(** A [for] loop whose body may raise: the first exception ends the loop. *)
Fixpoint for_each {A S} (body : S -> A -> result S) (items : list A) (s : S)
  : result S :=
  match items with
  | [] => Ok s
  | x :: rest => s' <- body s x ;; for_each body rest s'
  end.

(** ** hashlib.md5

    The hash object of the standard library, by its contract: [update]
    feeds bytes, and the digest is the MD5 (RFC 1321) of everything fed so
    far.  Words are 32-bit, held in [Z] with the wrap-around written out. *)

Module MD5.

Definition mask32 : Z := 4294967295.

Definition add32 (a b : Z) : Z := Z.land (a + b) mask32.

Definition not32 (a : Z) : Z := Z.lxor a mask32.

Definition rotl32 (x c : Z) : Z :=
  Z.land (Z.lor (Z.shiftl x c) (Z.shiftr x (32 - c))) mask32.

Definition shifts : list Z :=
  [7; 12; 17; 22; 7; 12; 17; 22; 7; 12; 17; 22; 7; 12; 17; 22;
   5; 9; 14; 20; 5; 9; 14; 20; 5; 9; 14; 20; 5; 9; 14; 20;
   4; 11; 16; 23; 4; 11; 16; 23; 4; 11; 16; 23; 4; 11; 16; 23;
   6; 10; 15; 21; 6; 10; 15; 21; 6; 10; 15; 21; 6; 10; 15; 21].

Definition sines : list Z :=
  [3614090360; 3905402710; 606105819; 3250441966;
   4118548399; 1200080426; 2821735955; 4249261313;
   1770035416; 2336552879; 4294925233; 2304563134;
   1804603682; 4254626195; 2792965006; 1236535329;
   4129170786; 3225465664; 643717713; 3921069994;
   3593408605; 38016083; 3634488961; 3889429448;
   568446438; 3275163606; 4107603335; 1163531501;
   2850285829; 4243563512; 1735328473; 2368359562;
   4294588738; 2272392833; 1839030562; 4259657740;
   2763975236; 1272893353; 4139469664; 3200236656;
   681279174; 3936430074; 3572445317; 76029189;
   3654602809; 3873151461; 530742520; 3299628645;
   4096336452; 1126891415; 2878612391; 4237533241;
   1700485571; 2399980690; 4293915773; 2240044497;
   1873313359; 4264355552; 2734768916; 1309151649;
   4149444226; 3174756917; 718787259; 3951481745].

Record regs : Type := Regs { ra : Z; rb : Z; rc : Z; rd : Z }.

Definition init_regs : regs := Regs 1732584193 4023233417 2562383102 271733878.

(** One of the 64 operations of a block. *)
Definition round (m : list Z) (r : regs) (i : nat) : regs :=
  let '(Regs a b c d) := r in
  let '(f, g) :=
    if (i <? 16)%nat then
      (Z.lor (Z.land b c) (Z.land (not32 b) d), i)
    else if (i <? 32)%nat then
      (Z.lor (Z.land d b) (Z.land (not32 d) c), ((5 * i + 1) mod 16)%nat)
    else if (i <? 48)%nat then
      (Z.lxor (Z.lxor b c) d, ((3 * i + 5) mod 16)%nat)
    else
      (Z.lxor c (Z.lor b (not32 d)), ((7 * i) mod 16)%nat) in
  let f' := add32 (add32 (add32 f a) (nth i sines 0)) (nth g m 0) in
  Regs d (add32 b (rotl32 f' (nth i shifts 0))) b c.

Definition byte_val (b : byte) : Z := Z.of_N (Byte.to_N b).

(** Little-endian words of a block. *)
Fixpoint words (bs : list byte) : list Z :=
  match bs with
  | b0 :: b1 :: b2 :: b3 :: rest =>
      (byte_val b0 + 256 * byte_val b1 + 65536 * byte_val b2
       + 16777216 * byte_val b3) :: words rest
  | _ => []
  end.

Definition block (r : regs) (bs : list byte) : regs :=
  let r' := fold_left (round (words bs)) (seq 0 64) r in
  Regs (add32 (ra r) (ra r')) (add32 (rb r) (rb r'))
       (add32 (rc r) (rc r')) (add32 (rd r) (rd r')).

Definition byte_of (z : Z) : byte :=
  match Byte.of_N (Z.to_N (z mod 256)) with
  | Some b => b
  | None => x00
  end.

Fixpoint le_bytes (n : nat) (z : Z) : list byte :=
  match n with
  | O => []
  | S n' => byte_of z :: le_bytes n' (z / 256)
  end.

Definition padding (len : Z) : list byte :=
  x80 :: repeat x00 (Z.to_nat ((55 - len) mod 64)) ++ le_bytes 8 (8 * len).

(** All blocks of a padded message; [n] bounds their number. *)
Fixpoint blocks (n : nat) (r : regs) (bs : list byte) : regs :=
  match n with
  | O => r
  | S n' =>
      match bs with
      | [] => r
      | _ => blocks n' (block r (firstn 64 bs)) (skipn 64 bs)
      end
  end.

Definition digest (msg : list byte) : list byte :=
  let padded := msg ++ padding (Z.of_nat (length msg)) in
  let r := blocks (length padded) init_regs padded in
  le_bytes 4 (ra r) ++ le_bytes 4 (rb r) ++ le_bytes 4 (rc r) ++ le_bytes 4 (rd r).

Definition hex_digit (z : Z) : ascii :=
  nth (Z.to_nat z)
      ["0"; "1"; "2"; "3"; "4"; "5"; "6"; "7";
       "8"; "9"; "a"; "b"; "c"; "d"; "e"; "f"]%char "0"%char.

Fixpoint hex (bs : list byte) : string :=
  match bs with
  | [] => EmptyString
  | b :: rest =>
      String (hex_digit (byte_val b / 16))
             (String (hex_digit (byte_val b mod 16)) (hex rest))
  end.

(** The hash object: the bytes fed so far. *)
Record t : Type := Hasher { fed : list byte }.

Definition md5 (data : list byte) : t := Hasher data.

Definition update (h : t) (chunk : list byte) : t := Hasher (fed h ++ chunk).

Definition hexdigest (h : t) : string := hex (digest (fed h)).

End MD5.

(** ** Paths and the directory tree *)

Definition Path : Type := string.

Definition sep : ascii := "/"%char.

Definition startswith_sep (p : string) : bool :=
  match p with
  | String c _ => Ascii.eqb c sep
  | EmptyString => false
  end.

Fixpoint endswith_sep (p : string) : bool :=
  match p with
  | EmptyString => false
  | String c EmptyString => Ascii.eqb c sep
  | String _ rest => endswith_sep rest
  end.

(** [os.path] is [posixpath] here.  [os.path.join] of two components;
    [Path(root) / filename] is the same join, what [pathlib] normalises in
    the spelling of the root left as it is. *)
Definition path_join (a b : string) : string :=
  if startswith_sep b then b
  else if (String.length a =? 0)%nat || endswith_sep a then (a ++ b)%string
  else (a ++ String sep b)%string.

(** [p.rfind(sep)]: the index of the last separator, [-1] when there is none. *)
Fixpoint rfind_sep (p : string) : Z :=
  match p with
  | EmptyString => -1
  | String c rest =>
      let i := rfind_sep rest in
      if 0 <=? i then i + 1
      else if Ascii.eqb c sep then 0 else -1
  end.

(** [os.path.basename]: what follows the last separator. *)
Definition basename (p : string) : string :=
  let i := Z.to_nat (rfind_sep p + 1) in
  substring i (String.length p - i) p.

(** A directory as [os.walk] lists it: the names of its files, and its
    sub-directories by name. *)
#[local] Unset Elimination Schemes.
Inductive tree : Type :=
| Dir (files : list string) (subdirs : list (string * tree)).
#[local] Set Elimination Schemes.

(** ** The filesystem

    [fs_stat] and [fs_open] answer [None] where the Python call raises
    [OSError].  Modification times are compared and never computed with:
    the float [st_mtime] is an integer here. *)

Record stat_result : Type := { st_size : Z; st_mtime : Z }.

Record filesystem : Type := {
  fs_stat : Path -> option stat_result;
  fs_open : Path -> option (list byte)
}.

(** The tree may change while a scan runs: each I/O step of the funnel sees
    the filesystem as it is at that step. *)
Record world : Type := {
  at_index : filesystem;
  at_quick : filesystem;
  at_regroup : filesystem;
  at_full : filesystem
}.

(** An unchanged tree. *)
Definition steady (fs : filesystem) : world :=
  {| at_index := fs; at_quick := fs; at_regroup := fs; at_full := fs |}.

(** What the interpreter found at import time. *)
Record runtime : Type := {
  MULTIPROCESSING_AVAILABLE : bool;
  TQDM_AVAILABLE : bool;
  cpu_count : Z;
  (** which worker of the pool picks up the n-th task *)
  schedule : nat -> nat;
  (** what the n-th call of [time.time()] returns, a float held as the
      rational it stands for *)
  time_time : nat -> Q
}.

(** ** Digest functions *)

Definition BUFFER_SIZE : nat := Z.to_nat 262144.
Definition QUICK_HASH_SIZE : nat := Z.to_nat 8192.

(** An open binary file: the bytes not read yet. *)
Record file_obj : Type := { unread : list byte }.

Definition read (n : nat) (f : file_obj) : list byte * file_obj :=
  (firstn n (unread f), {| unread := skipn n (unread f) |}).

Definition calculate_quick_hash (fs : filesystem) (file_path : Path)
  : option string :=
  match fs_open fs file_path with
  | Some content =>
      let f := {| unread := content |} in
      Some (MD5.hexdigest (MD5.md5 (fst (read QUICK_HASH_SIZE f))))
  | None => None
  end.

(** [while chunk := f.read(BUFFER_SIZE): md5.update(chunk)]; [None] when
    the loop is cut short by [fuel]. *)
Fixpoint read_loop (fuel : nat) (f : file_obj) (md5 : MD5.t) : option MD5.t :=
  match fuel with
  | O => None
  | S fuel' =>
      let '(chunk, f') := read BUFFER_SIZE f in
      match chunk with
      | [] => Some md5
      | _ :: _ => read_loop fuel' f' (MD5.update md5 chunk)
      end
  end.

Definition calculate_full_hash (fs : filesystem) (file_path : Path)
  : option string :=
  let md5 := MD5.md5 [] in
  match fs_open fs file_path with
  | Some content =>
      let f := {| unread := content |} in
      match read_loop (S (length content)) f md5 with
      | Some md5' => Some (MD5.hexdigest md5')
      | None => None
      end
  | None => None
  end.

(** The whole content hashed in one call. *)
Definition whole_content_hash (fs : filesystem) (file_path : Path)
  : option string :=
  match fs_open fs file_path with
  | Some content => Some (MD5.hexdigest (MD5.md5 content))
  | None => None
  end.

Definition hash_file_wrapper (fs : filesystem) (hash_type : string)
  (file_path : Path) : Path * option string :=
  if String.eqb hash_type "quick" then
    (file_path, calculate_quick_hash fs file_path)
  else (file_path, calculate_full_hash fs file_path).

(** ** Modification times *)

(** A float that is a timestamp or [float('inf')]. *)
Inductive age : Type :=
| Finite (t : Z)
| Infinity.

Definition age_ltb (a b : age) : bool :=
  match a, b with
  | Finite x, Finite y => x <? y
  | Finite _, Infinity => true
  | Infinity, _ => false
  end.

Definition get_file_age (fs : filesystem) (file_path : Path) : age :=
  match fs_stat fs file_path with
  | Some s => Finite (st_mtime s)
  | None => Infinity
  end.

(** ** Skipped directories *)

Definition should_skip_directory (dir_path : string)
  (skip_patterns : list string) : bool :=
  if in_dec string_dec (basename dir_path) skip_patterns then true else false.

(** ** Dictionaries

    A [dict] keeps its keys in insertion order; [dd_append k v d] is
    [d[k].append(v)] on a [defaultdict(list)]. *)

Class EqDec (K : Type) : Type :=
  eq_dec : forall x y : K, {x = y} + {x <> y}.

#[export] Instance Z_EqDec : EqDec Z := Z.eq_dec.
#[export] Instance string_EqDec : EqDec string := string_dec.
#[export] Instance prod_EqDec {A B} `{EqDec A} `{EqDec B} : EqDec (A * B).
Proof.
  intros [a b] [a' b'].
  destruct (eq_dec a a') as [Ha | Ha]; [| right; congruence].
  destruct (eq_dec b b') as [Hb | Hb]; [left | right]; congruence.
Defined.

Definition dict (K V : Type) : Type := list (K * V).

Definition values {K V} (d : dict K V) : list V := map snd d.

Fixpoint dd_append {K V} `{EqDec K} (k : K) (v : V) (d : dict K (list V))
  : dict K (list V) :=
  match d with
  | [] => [(k, [v])]
  | (k', vs) :: d' =>
      if eq_dec k' k then (k', vs ++ [v]) :: d'
      else (k', vs) :: dd_append k v d'
  end.

(** [len(paths) > 1] *)
Definition several {A} (paths : list A) : bool := (1 <? length paths)%nat.

(** [[p for paths in d.values() if len(paths) > 1 for p in paths]] *)
Definition flatten_several {K A} (d : dict K (list A)) : list A :=
  concat (filter several (values d)).

(** Truth value of an [Optional[str]]: [None] and the empty string are
    false. *)
Definition truthy (h : option string) : option string :=
  match h with
  | Some EmptyString => None
  | _ => h
  end.

(** True division of two integers. *)
Definition true_div (a b : Z) : result Q :=
  if b =? 0 then Raise ZeroDivisionError
  else Ok (Qdiv (inject_Z a) (inject_Z b)).

(** True division of an integer by a float. *)
Definition float_div (a : Z) (b : Q) : result Q :=
  if Qeq_bool b (inject_Z 0) then Raise ZeroDivisionError
  else Ok (Qdiv (inject_Z a) b).

(** [print] of a line that shows a path: [stdout] tells the strings that
    the encoding of the standard output can encode. *)
Definition print_path (stdout : string -> bool) (path : string)
  : result unit :=
  if stdout path then Ok tt else Raise UnicodeEncodeError.

(** ** Parallel executor *)

(** Progress bar around an iterator: the items pass through unchanged. *)
Definition tqdm {A} (iterator : list A) : list A := iterator.

(** The tasks a pool makes of its input: slices of [chunksize] items. *)
Fixpoint slices {A} (fuel chunksize : nat) (items : list A) : list (list A) :=
  match fuel, items with
  | S fuel', _ :: _ =>
      firstn chunksize items :: slices fuel' chunksize (skipn chunksize items)
  | _, _ => []
  end.

(** [Pool(workers).imap(func, items, chunksize)].  Task [i] is run by the
    worker [schedule i]; the workers finish in any order, and [imap] hands
    the results back in the order of the tasks. *)
Definition Pool_imap {A B} (workers : nat) (schedule : nat -> nat)
  (func : A -> B) (items : list A) (chunksize : nat) : list B :=
  let tasks := slices (length items) chunksize items in
  let numbered := combine (seq 0 (length tasks)) tasks in
  let run (w : nat) :=
    map (fun t : nat * list A => (fst t, map func (snd t)))
        (filter (fun t => (schedule (fst t) mod workers =? w)%nat) numbered) in
  let finished := flat_map run (seq 0 workers) in
  flat_map (fun i =>
              match find (fun r => (fst r =? i)%nat) finished with
              | Some r => snd r
              | None => []
              end)
           (seq 0 (length tasks)).

Definition parallel_hash {A B} (rt : runtime) (func : A -> B) (items : list A)
  (workers : Z) (chunksize : nat) : list B :=
  if MULTIPROCESSING_AVAILABLE rt && (1 <? workers) then
    let iterator :=
      Pool_imap (Z.to_nat workers) (schedule rt) func items chunksize in
    if TQDM_AVAILABLE rt then tqdm iterator else iterator
  else
    let iterator := map func items in
    if TQDM_AVAILABLE rt then tqdm iterator else iterator.

(** ** Duplicate funnel *)

(** [os.walk(top)], top-down.  The loop body of the caller runs on
    [(top, dirs, files)] and hands back the list [dirs] as it left it; the
    walk then descends into the sub-directories still named in it. *)
Fixpoint os_walk {S} (body : string -> list string -> list string -> S
                             -> S * list string)
  (top : string) (t : tree) (s : S) : S :=
  match t with
  | Dir files subdirs =>
      let '(s', dirs) := body top (map fst subdirs) files s in
      fold_left (fun s entry =>
                   if in_dec string_dec (fst entry) dirs
                   then os_walk body (path_join top (fst entry)) (snd entry) s
                   else s)
                subdirs s'
  end.

(** [size_map], [total_files], [total_size] *)
Definition index_state : Type := dict Z (list Path) * Z * Z.

(** The body of the loop over [files]. *)
Definition index_file (fs : filesystem) (root : string) (st : index_state)
  (filename : string) : index_state :=
  let '(size_map, total_files, total_size) := st in
  let file_path := path_join root filename in
  match fs_stat fs file_path with
  | Some s =>
      let file_size := st_size s in
      (dd_append file_size file_path size_map,
       total_files + 1, total_size + file_size)
  | None => st
  end.

(** The body of the loop over [os.walk]: [dirs.clear(); continue] for a
    skipped directory. *)
Definition index_directory (fs : filesystem) (skip_patterns : list string)
  (root : string) (dirs files : list string) (st : index_state)
  : index_state * list string :=
  if should_skip_directory root skip_patterns then (st, [])
  else (fold_left (index_file fs root) files st, dirs).

(** Phase 1. *)
Definition index_by_size (fs : filesystem) (skip_patterns : list string)
  (root_dir : string) (t : tree) : index_state :=
  os_walk (index_directory fs skip_patterns) root_dir t ([], 0, 0).

(** The loop that fills [quick_map]; the size is read again from disk. *)
Definition regroup_quick (fs : filesystem)
  (quick_map : dict (Z * string) (list Path)) (r : Path * option string)
  : result (dict (Z * string) (list Path)) :=
  let '(path, qhash) := r in
  match truthy qhash with
  | Some q =>
      match fs_stat fs path with
      | Some s => Ok (dd_append (st_size s, q) path quick_map)
      | None => Raise OSError
      end
  | None => Ok quick_map
  end.

(** The loop that fills [hash_map]. *)
Definition regroup_full (hash_map : dict string (list Path))
  (r : Path * option string) : dict string (list Path) :=
  let '(path, fhash) := r in
  match truthy fhash with
  | Some h => dd_append h path hash_map
  | None => hash_map
  end.

(** Phase 2, from the candidates on. *)
Definition quick_phase (rt : runtime) (w : world) (workers : Z)
  (candidates : list Path) : result (dict (Z * string) (list Path)) :=
  let func := hash_file_wrapper (at_quick w) "quick" in
  let results := parallel_hash rt func candidates workers 50 in
  for_each (regroup_quick (at_regroup w)) results [].

(** Phase 3, from the final candidates on. *)
Definition full_phase (rt : runtime) (w : world) (workers : Z)
  (final_candidates : list Path) : dict string (list Path) :=
  let func := hash_file_wrapper (at_full w) "full" in
  let results := parallel_hash rt func final_candidates workers 20 in
  let hash_map := fold_left regroup_full results [] in
  filter (fun hp => several (snd hp)) hash_map.

(** Of the progress lines, the model keeps what can raise: the share of
    the candidates among the indexed files, and the rate of the closing
    report, which divides by the elapsed time. *)
Definition find_duplicates (rt : runtime) (w : world) (t : tree)
  (root_dir : string) (skip_patterns : list string) (workers : option Z)
  : result (dict string (list Path)) :=
  let workers :=
    match workers with
    | Some n => n
    | None => if MULTIPROCESSING_AVAILABLE rt then cpu_count rt else 1
    end in
  let start_time := time_time rt 0 in
  let '(size_map, total_files, total_size) :=
    index_by_size (at_index w) skip_patterns root_dir t in
  let candidates := flatten_several size_map in
  match candidates with
  | [] => Ok []
  | _ :: _ =>
      _ <- true_div (Z.of_nat (length candidates)) total_files ;;
      quick_map <- quick_phase rt w workers candidates ;;
      let final_candidates := flatten_several quick_map in
      match final_candidates with
      | [] => Ok []
      | _ :: _ =>
          let duplicates := full_phase rt w workers final_candidates in
          let elapsed := Qminus (time_time rt 1) start_time in
          _ <- float_div total_files elapsed ;;
          Ok duplicates
      end
  end.

(** ** Deletion planner *)

(** [sorted(l, key=key)]: a stable sort; an element goes in front of the
    first one whose key is not smaller than its own. *)
Fixpoint insert_by_key {A} (key : A -> age) (x : A) (l : list A) : list A :=
  match l with
  | [] => [x]
  | y :: rest =>
      if age_ltb (key y) (key x) then y :: insert_by_key key x rest
      else x :: y :: rest
  end.

Fixpoint sorted {A} (key : A -> age) (l : list A) : list A :=
  match l with
  | [] => []
  | x :: rest => insert_by_key key x (sorted key rest)
  end.

Record statistics : Type := {
  groups : Z;
  total_files : Z;
  files_to_delete : Z;
  files_to_keep : Z;
  space_total : Z;
  space_wasted : Z
}.

(** (delete target, keep target, size) *)
Definition decision : Type := Path * Path * Z.

(** The body of the loop over [duplicates.items()]. *)
Definition analyze_group (fs : filesystem)
  (acc : list decision * statistics) (item : string * list Path)
  : result (list decision * statistics) :=
  let '(deletion_plan, stats) := acc in
  let '(file_hash, file_paths) := item in
  let sorted_by_age := sorted (get_file_age fs) file_paths in
  match sorted_by_age with
  | [] => Raise IndexError
  | oldest_file :: newer_files =>
      match fs_stat fs oldest_file with
      | None => Raise OSError
      | Some s =>
          let file_size := st_size s in
          Ok (deletion_plan
                ++ map (fun newer_file => (newer_file, oldest_file, file_size))
                       newer_files,
              {| groups := groups stats;
                 total_files :=
                   total_files stats + Z.of_nat (length file_paths);
                 files_to_delete :=
                   files_to_delete stats + Z.of_nat (length newer_files);
                 files_to_keep := files_to_keep stats + 1;
                 space_total := space_total stats + file_size;
                 space_wasted :=
                   space_wasted stats
                   + file_size * Z.of_nat (length newer_files) |})
      end
  end.

Definition analyze_duplicates (fs : filesystem)
  (duplicates : dict string (list Path))
  : result (list decision * statistics) :=
  let deletion_plan := [] in
  let stats :=
    {| groups := Z.of_nat (length duplicates);
       total_files := 0;
       files_to_delete := 0;
       files_to_keep := 0;
       space_total := 0;
       space_wasted := 0 |} in
  for_each (analyze_group fs) duplicates (deletion_plan, stats).

(** The body of the loop with which [print_statistics] builds the
    dictionary [groups] for its examples:
    [groups[to_keep].append(to_delete)]. *)
Definition example_step (groups : dict Path (list Path)) (entry : decision)
  : dict Path (list Path) :=
  let '(to_delete, to_keep, size) := entry in
  dd_append to_keep to_delete groups.

Definition example_groups (deletion_plan : list decision)
  : dict Path (list Path) :=
  fold_left example_step deletion_plan [].

(** The groups it prints, and the number it announces as more, if any. *)
Definition printed_examples (deletion_plan : list decision)
  : list (Path * list Path) * option Z :=
  let groups := example_groups deletion_plan in
  (firstn 5 groups,
   if (5 <? length groups)%nat then Some (Z.of_nat (length groups) - 5)
   else None).

(** The body of the loop over the examples.  The dates under the paths
    come from [get_file_age] and [format_date], whose handlers let nothing
    out. *)
Definition print_example (stdout : string -> bool) (_ : unit)
  (item : Path * list Path) : result unit :=
  let '(keep_file, delete_list) := item in
  _ <- print_path stdout keep_file ;;
  for_each (fun _ delete_file => print_path stdout delete_file)
           delete_list tt.

(** Of the lines it prints, the model keeps what can raise: the division
    of the waste percentage and the paths of the examples.  The function
    returns nothing; the result here is the percentage it has printed. *)
Definition print_statistics (stdout : string -> bool) (stats : statistics)
  (deletion_plan : list decision) : result Q :=
  ratio <- true_div (space_wasted stats)
                    (space_total stats + space_wasted stats) ;;
  let percentage := Qmult ratio (inject_Z 100) in
  let '(examples, more) := printed_examples deletion_plan in
  _ <- for_each (print_example stdout) examples tt ;;
  Ok percentage.

(** ** Deletion executor *)

(** The volume while files are removed: the paths that are there, and the
    recycle bin. *)
Record volume : Type := {
  present : list Path;
  recycle_bin : list Path
}.

(** [os.remove(path)]: [locked] tells the files that are there and cannot
    be removed (permissions, a file in use). *)
Definition os_remove (locked : Path -> bool) (v : volume) (path : Path)
  : result volume :=
  if in_dec string_dec path (present v) then
    if locked path then Raise OSError
    else Ok {| present := remove string_dec path (present v);
               recycle_bin := recycle_bin v |}
  else Raise OSError.

(** [send2trash(path)]: the file moves to the recycle bin. *)
Definition send2trash (locked : Path -> bool) (v : volume) (path : Path)
  : result volume :=
  if in_dec string_dec path (present v) then
    if locked path then Raise OSError
    else Ok {| present := remove string_dec path (present v);
               recycle_bin := recycle_bin v ++ [path] |}
  else Raise OSError.

(** [deleted], [failed], [freed] *)
Definition deletion_count : Type := Z * Z * Z.

(** The body of the loop of [delete_files]; every exception is caught and
    counted. *)
Definition delete_entry (TRASH_AVAILABLE : bool) (locked : Path -> bool)
  (st : volume * deletion_count) (entry : decision)
  : volume * deletion_count :=
  let '(v, (deleted, failed, freed)) := st in
  let '(to_delete, to_keep, size) := entry in
  match (if TRASH_AVAILABLE then send2trash locked v to_delete
         else os_remove locked v to_delete) with
  | Ok v' => (v', (deleted + 1, failed, freed + size))
  | Raise e => (v, (deleted, failed + 1, freed))
  end.

Definition delete_files (rt : runtime) (TRASH_AVAILABLE : bool)
  (locked : Path -> bool) (deletion_plan : list decision) (v : volume)
  : volume * deletion_count :=
  let iterator :=
    if TQDM_AVAILABLE rt then tqdm deletion_plan else deletion_plan in
  fold_left (delete_entry TRASH_AVAILABLE locked) iterator (v, (0, 0, 0)).

(** ** Vocabulary of the statements *)

(** The size [oldest_file.stat().st_size] reads; [0] stands for a failed
    [stat] and is never used where the planner returns. *)
Definition size_on_disk (fs : filesystem) (p : Path) : Z :=
  match fs_stat fs p with
  | Some s => st_size s
  | None => 0
  end.

Definition readable (fs : filesystem) (p : Path) : Prop :=
  fs_stat fs p <> None.

(** [oldest_file] of a group. *)
Definition keep_file (fs : filesystem) (file_paths : list Path) : option Path :=
  hd_error (sorted (get_file_age fs) file_paths).

Definition keep_size (fs : filesystem) (file_paths : list Path) : Z :=
  match keep_file fs file_paths with
  | Some k => size_on_disk fs k
  | None => 0
  end.

(** The decisions one group adds to the plan. *)
Definition group_decisions (fs : filesystem) (file_paths : list Path)
  : list decision :=
  match sorted (get_file_age fs) file_paths with
  | [] => []
  | oldest_file :: newer_files =>
      map (fun newer_file =>
             (newer_file, oldest_file, size_on_disk fs oldest_file))
          newer_files
  end.

Definition Zsum (l : list Z) : Z := fold_right Z.add 0 l.

Definition delete_target (d : decision) : Path := fst (fst d).
Definition keep_target (d : decision) : Path := snd (fst d).

Definition age_eqb (a b : age) : bool :=
  match a, b with
  | Finite x, Finite y => x =? y
  | Infinity, Infinity => true
  | _, _ => false
  end.

(** Every file path below a directory, in the order of a walk that skips
    nothing. *)
Fixpoint all_files (top : string) (t : tree) : list Path :=
  match t with
  | Dir files subdirs =>
      map (path_join top) files
      ++ flat_map (fun entry =>
                     all_files (path_join top (fst entry)) (snd entry))
                  subdirs
  end.

(** The file paths the walk of [find_duplicates] comes across, in order. *)
Fixpoint visited_files (skip_patterns : list string) (top : string) (t : tree)
  : list Path :=
  match t with
  | Dir files subdirs =>
      if should_skip_directory top skip_patterns then []
      else
        map (path_join top) files
        ++ flat_map (fun entry =>
                       visited_files skip_patterns (path_join top (fst entry))
                                     (snd entry))
                    subdirs
  end.

(** [subdir_at top t p d]: the directory [d] lies at path [p] in the tree
    [t] rooted at [top] ([t] itself included). *)
Inductive subdir_at : string -> tree -> string -> tree -> Prop :=
| subdir_here : forall top t, subdir_at top t top t
| subdir_below : forall top files subdirs name sub p d,
    In (name, sub) subdirs ->
    subdir_at (path_join top name) sub p d ->
    subdir_at top (Dir files subdirs) p d.

(** Grouping a list under the keys of its elements; an element without a
    key is left out. *)
Definition group_step {K A} `{EqDec K} (key : A -> option K)
  (d : dict K (list A)) (x : A) : dict K (list A) :=
  match key x with
  | Some k => dd_append k x d
  | None => d
  end.

Definition group_by {K A} `{EqDec K} (key : A -> option K) (l : list A)
  : dict K (list A) :=
  fold_left (group_step key) l [].

(** [d.get(k, [])] *)
Fixpoint dd_get {K V} `{EqDec K} (k : K) (d : dict K (list V)) : list V :=
  match d with
  | [] => []
  | (k', vs) :: d' => if eq_dec k' k then vs else dd_get k d'
  end.

Definition has_key {K A} `{EqDec K} (key : A -> option K) (k : K) (x : A)
  : bool :=
  match key x with
  | Some k' => if eq_dec k' k then true else false
  | None => false
  end.

(** The keys of the three stages. *)
Definition size_key (fs : filesystem) (p : Path) : option Z :=
  option_map st_size (fs_stat fs p).

Definition quick_key (w : world) (p : Path) : option (Z * string) :=
  match truthy (calculate_quick_hash (at_quick w) p),
        fs_stat (at_regroup w) p with
  | Some q, Some s => Some (st_size s, q)
  | _, _ => None
  end.

Definition full_key (fs : filesystem) (p : Path) : option string :=
  truthy (calculate_full_hash fs p).

(** The body of the loop over [files], on the joined path. *)
Definition index_path (fs : filesystem) (st : index_state) (file_path : Path)
  : index_state :=
  let '(size_map, total_files, total_size) := st in
  match fs_stat fs file_path with
  | Some s =>
      (dd_append (st_size s) file_path size_map,
       total_files + 1, total_size + st_size s)
  | None => st
  end.

Definition has_some {A K} (key : A -> option K) (x : A) : bool :=
  match key x with
  | Some _ => true
  | None => false
  end.

(** The three regroupings of the funnel, one after the other. *)
Definition size_candidates (w : world) (skip_patterns : list string)
  (root_dir : string) (t : tree) : list Path :=
  flatten_several
    (group_by (size_key (at_index w)) (visited_files skip_patterns root_dir t)).

Definition quick_candidates (w : world) (skip_patterns : list string)
  (root_dir : string) (t : tree) : list Path :=
  flatten_several
    (group_by (quick_key w) (size_candidates w skip_patterns root_dir t)).

Definition funnel (w : world) (skip_patterns : list string)
  (root_dir : string) (t : tree) : dict string (list Path) :=
  filter (fun hp => several (snd hp))
         (group_by (full_key (at_full w))
                   (quick_candidates w skip_patterns root_dir t)).

(** Regular files: what [stat] gives as size is the length of what [open]
    gives as content. *)
Definition regular_files (fs : filesystem) (l : list Path) : Prop :=
  forall p c,
    In p l -> fs_open fs p = Some c ->
    exists s, fs_stat fs p = Some s /\ st_size s = Z.of_nat (length c).

(** The files of digest [h] are byte-identical. *)
Definition byte_identical (fs : filesystem) (h : string) (l : list Path)
  : Prop :=
  forall p q c c',
    In p l -> In q l ->
    fs_open fs p = Some c -> fs_open fs q = Some c' ->
    MD5.hexdigest (MD5.md5 c) = h -> MD5.hexdigest (MD5.md5 c') = h ->
    c = c'.

(** [x] may stand before [y] in a list sorted by [key]. *)
Definition not_after {A} (key : A -> age) (x y : A) : Prop :=
  age_ltb (key y) (key x) = false.


(** [x] comes before [y] in [l]. *)
Definition precedes {A} (x y : A) (l : list A) : Prop :=
  exists l1 l2 l3, l = l1 ++ x :: l2 ++ y :: l3.

(** An example whose paths the standard output can encode. *)
Definition printable (stdout : string -> bool) (item : Path * list Path)
  : Prop :=
  stdout (fst item) = true /\ Forall (fun p => stdout p = true) (snd item).

(** A name as a directory lists it: not empty, without separator. *)
Definition good_name (name : string) : Prop :=
  name <> EmptyString /\ rfind_sep name = -1.

(** A tree as a filesystem has it: in every directory the names are good
    and no two files, and no two sub-directories, share a name. *)
Fixpoint wf_tree (t : tree) : Prop :=
  match t with
  | Dir files subdirs =>
      Forall good_name files /\ NoDup files
      /\ Forall good_name (map fst subdirs) /\ NoDup (map fst subdirs)
      /\ fold_right (fun entry rest => wf_tree (snd entry) /\ rest) True subdirs
  end.

(** What [os.path.join] puts in front of a name. *)
Definition dir_prefix (top : string) : string :=
  if (String.length top =? 0)%nat || endswith_sep top then top
  else (top ++ String sep EmptyString)%string.

(** The file paths of a tree, relative to its root. *)
Fixpoint rel_files (t : tree) : list string :=
  match t with
  | Dir files subdirs =>
      files
      ++ flat_map (fun entry =>
                     map (fun r => (fst entry ++ String sep r)%string)
                         (rel_files (snd entry)))
                  subdirs
  end.

(** ** Concrete filesystems *)

Fixpoint lookup {V} (p : Path) (l : list (Path * V)) : option V :=
  match l with
  | [] => None
  | (q, v) :: rest => if String.eqb p q then Some v else lookup p rest
  end.

(** A disk of regular files, each given by path, modification time and
    content. *)
Definition disk (entries : list (Path * (Z * list byte))) : filesystem :=
  {| fs_stat p :=
       match lookup p entries with
       | Some (m, c) =>
           Some {| st_size := Z.of_nat (length c); st_mtime := m |}
       | None => None
       end;
     fs_open p := option_map snd (lookup p entries) |}.

Definition one_core : runtime :=
  {| MULTIPROCESSING_AVAILABLE := false;
     TQDM_AVAILABLE := false;
     cpu_count := 1;
     schedule := fun _ => O;
     time_time := fun n => inject_Z (Z.of_nat n) |}.

Definition four_cores : runtime :=
  {| MULTIPROCESSING_AVAILABLE := true;
     TQDM_AVAILABLE := true;
     cpu_count := 4;
     schedule := fun i => (3 * i + 1)%nat;
     time_time := fun n => inject_Z (1700000000 + 2 * Z.of_nat n) |}.


(** ** Sample trees *)

Definition bytes_of (s : string) : list byte := list_byte_of_string s.

(** Three copies of one content among five files, and a skipped directory
    holding two empty files. *)
Definition sample_tree : tree :=
  Dir ["a"; "b"; "c"]%string
      [("themes", Dir ["x"; "y"] []); ("sub", Dir ["d"; "e"] [])]%string.

Definition sample_disk : filesystem :=
  disk [("/r/a", (5, bytes_of "hello")); ("/r/b", (3, bytes_of "hello"));
        ("/r/c", (3, bytes_of "world")); ("/r/themes/x", (1, []));
        ("/r/themes/y", (1, [])); ("/r/sub/d", (3, bytes_of "hello"));
        ("/r/sub/e", (9, bytes_of "hellp"))]%string.

Definition sample_groups : dict string (list Path) :=
  [("5d41402abc4b2a76b9719d911017c592",
    ["/r/a"; "/r/b"; "/r/sub/d"])]%string.

(** Two copies; the older one grows after the scan. *)
Definition pair_tree : tree := Dir ["a"; "b"]%string [].

(** The same directory, listed in the other order. *)
Definition pair_tree_reversed : tree := Dir ["b"; "a"]%string [].

Definition pair_disk : filesystem :=
  disk [("/r/a", (3, bytes_of "hello")); ("/r/b", (50, bytes_of "hello"))]%string.

Definition pair_disk_later : filesystem :=
  disk [("/r/a", (20, bytes_of "hello, world"));
        ("/r/b", (50, bytes_of "hello"))]%string.

Definition pair_groups : dict string (list Path) :=
  [("5d41402abc4b2a76b9719d911017c592", ["/r/a"; "/r/b"])]%string.

(** Two empty files. *)
Definition empty_pair_disk : filesystem :=
  disk [("/r/a", (3, [])); ("/r/b", (50, []))]%string.

Definition empty_pair_groups : dict string (list Path) :=
  [("d41d8cd98f00b204e9800998ecf8427e", ["/r/a"; "/r/b"])]%string.

(** The file [/r/a] is there while the tree is indexed and hashed, and
    gone when the quick hashes are regrouped. *)
Definition vanishing_world : world :=
  {| at_index := pair_disk;
     at_quick := pair_disk;
     at_regroup := disk [("/r/b", (50, bytes_of "hello"))]%string;
     at_full := disk [("/r/b", (50, bytes_of "hello"))]%string |}.




(** The five sample files on a volume with an empty recycle bin. *)
Definition sample_volume : volume :=
  {| present := ["/r/a"; "/r/b"; "/r/c"; "/r/sub/d"; "/r/sub/e"]%string;
     recycle_bin := [] |}.

Definition sample_plan : list decision :=
  [("/r/sub/d", "/r/b", 5); ("/r/a", "/r/b", 5)]%string.

Definition sample_stats : statistics :=
  {| groups := 1; total_files := 3; files_to_delete := 2;
     files_to_keep := 1; space_total := 5; space_wasted := 10 |}.

Definition nothing_locked (p : Path) : bool := false.

(** * Properties *)

(** ** hashlib.md5: test vectors of RFC 1321 *)

Example md5_empty :
  MD5.hexdigest (MD5.md5 []) = "d41d8cd98f00b204e9800998ecf8427e"%string.
Proof. vm_compute. reflexivity. Qed.

Example md5_abc :
  MD5.hexdigest (MD5.md5 (list_byte_of_string "abc"))
  = "900150983cd24fb0d6963f7d28e17f72"%string.
Proof. vm_compute. reflexivity. Qed.

Example md5_two_blocks :
  MD5.hexdigest (MD5.md5 (repeat "a"%byte 70))
  = "0f5c6c4e740bfcc08c3c26ccb2673d46"%string.
Proof. vm_compute. reflexivity. Qed.

Arguments BUFFER_SIZE : simpl never.
Arguments QUICK_HASH_SIZE : simpl never.

(** ** Loops that may raise *)

Lemma bind_Ok {A B} (r : result A) (k : A -> result B) (b : B) :
  bind r k = Ok b -> exists a, r = Ok a /\ k a = Ok b.
Proof.
  destruct r as [a | e]; simpl; intros H; [eauto | discriminate].
Qed.

Lemma for_each_app {A S} (body : S -> A -> result S) (l1 l2 : list A) (s : S) :
  for_each body (l1 ++ l2) s = s' <- for_each body l1 s ;; for_each body l2 s'.
Proof.
  revert s; induction l1 as [| x l1 IH]; intros s; simpl; [reflexivity |].
  destruct (body s x) as [s1 | e]; simpl; [apply IH | reflexivity].
Qed.

(** ** Digest functions *)

Lemma BUFFER_SIZE_pos : (0 < BUFFER_SIZE)%nat.
Proof. unfold BUFFER_SIZE. lia. Qed.

Lemma firstn_nil_inv {A} (n : nat) (l : list A) :
  (0 < n)%nat -> firstn n l = [] -> l = [].
Proof.
  destruct n as [| n]; [lia |]. destruct l; [reflexivity | discriminate].
Qed.

(** With fuel beyond the number of unread bytes the loop ends by itself,
    having fed every byte in order. *)
Lemma read_loop_feeds_all (fuel : nat) :
  forall (content : list byte) (md5 : MD5.t),
    (length content < fuel)%nat ->
    read_loop fuel {| unread := content |} md5
    = Some (MD5.update md5 content).
Proof.
  induction fuel as [| fuel IH]; intros content md5 Hfuel; [lia |].
  cbn [read_loop read unread].
  destruct (firstn BUFFER_SIZE content) as [| b chunk] eqn:Hchunk.
  - apply firstn_nil_inv in Hchunk; [| exact BUFFER_SIZE_pos]. subst content.
    destruct md5 as [fed]. unfold MD5.update. cbn [MD5.fed].
    now rewrite app_nil_r.
  - rewrite IH.
    + unfold MD5.update. cbn [MD5.fed]. rewrite <- app_assoc.
      rewrite <- Hchunk, firstn_skipn. reflexivity.
    + rewrite length_skipn. pose proof BUFFER_SIZE_pos.
      destruct content as [| c content].
      * rewrite firstn_nil in Hchunk. discriminate.
      * cbn [length] in *. lia.
Qed.

Lemma full_hash_is_whole_hash (fs : filesystem) (file_path : Path) :
  calculate_full_hash fs file_path = whole_content_hash fs file_path.
Proof.
  unfold calculate_full_hash, whole_content_hash.
  destruct (fs_open fs file_path) as [content |]; [| reflexivity].
  rewrite read_loop_feeds_all by lia. reflexivity.
Qed.

(** C8. Reading the content in chunks of [BUFFER_SIZE] bytes and feeding
    them one by one yields the digest of the whole content hashed in one
    call, and no digest exactly when the file cannot be opened. *)
Theorem calculate_full_hash_whole_content (fs : filesystem) (file_path : Path) :
  calculate_full_hash fs file_path = whole_content_hash fs file_path.
Proof. apply full_hash_is_whole_hash. Qed.

(** A hex digest is never the empty string. *)
Lemma hexdigest_truthy (h : MD5.t) :
  truthy (Some (MD5.hexdigest h)) = Some (MD5.hexdigest h).
Proof. reflexivity. Qed.

(** ** Parallel executor *)

Lemma slices_concat {A} (fuel chunksize : nat) :
  forall items : list A,
    (0 < chunksize)%nat -> (length items <= fuel)%nat ->
    concat (slices fuel chunksize items) = items.
Proof.
  induction fuel as [| fuel IH]; intros items Hc Hlen.
  - destruct items; [reflexivity | simpl in Hlen; lia].
  - destruct items as [| x items]; [reflexivity |].
    cbn [slices concat]. rewrite IH; [apply firstn_skipn | assumption |].
    rewrite length_skipn. cbn [length] in *. lia.
Qed.

Lemma In_numbered {A} (l : list A) :
  forall (s i : nat) (c : A),
    In (i, c) (combine (seq s (length l)) l)
    <-> (s <= i)%nat /\ nth_error l (i - s) = Some c.
Proof.
  induction l as [| x l IH]; intros s i c; simpl.
  - split; [tauto |]. intros [_ H]. destruct (i - s)%nat; discriminate.
  - rewrite IH. split.
    + intros [H | [Hle H]].
      * inversion H; subst. rewrite Nat.sub_diag. split; [lia | reflexivity].
      * split; [lia |]. replace (i - s)%nat with (S (i - S s)) by lia.
        exact H.
    + intros [Hle H]. destruct (i - s)%nat as [| k] eqn:Hk.
      * left. simpl in H. inversion H. f_equal. lia.
      * right. split; [lia |]. replace (i - S s)%nat with k by lia. exact H.
Qed.

Lemma flat_map_nth {A B} (f : list A -> list B) (look : nat -> list B)
  (l : list (list A)) :
  forall s : nat,
    (forall k c, nth_error l k = Some c -> look (s + k)%nat = f c) ->
    flat_map look (seq s (length l)) = concat (map f l).
Proof.
  induction l as [| c l IH]; intros s Hlook; [reflexivity |].
  cbn [length seq flat_map map concat]. f_equal.
  - rewrite <- (Hlook O c eq_refl). f_equal. lia.
  - apply IH. intros k c' Hk. rewrite <- (Hlook (S k) c' Hk). f_equal. lia.
Qed.

(** Whatever the schedule, a pool with at least one worker returns the
    results of [map], in the order of the input. *)
Lemma Pool_imap_map {A B} (workers : nat) (schedule : nat -> nat)
  (func : A -> B) (items : list A) (chunksize : nat) :
  (0 < workers)%nat -> (0 < chunksize)%nat ->
  Pool_imap workers schedule func items chunksize = map func items.
Proof.
  intros Hw Hc. unfold Pool_imap.
  set (tasks := slices (length items) chunksize items).
  set (numbered := combine (seq 0 (length tasks)) tasks).
  set (run := fun w : nat =>
                map (fun t : nat * list A => (fst t, map func (snd t)))
                    (filter (fun t => (schedule (fst t) mod workers =? w)%nat)
                            numbered)).
  assert (Hin : forall r, In r (flat_map run (seq 0 workers)) <->
                          exists c, nth_error tasks (fst r) = Some c
                                    /\ snd r = map func c).
  { intros r. rewrite in_flat_map. split.
    - intros (w & _ & Hr). unfold run in Hr. apply in_map_iff in Hr.
      destruct Hr as ([i c] & <- & Ht). apply filter_In in Ht.
      destruct Ht as [Ht _]. apply In_numbered in Ht. simpl.
      rewrite Nat.sub_0_r in Ht. exists c. tauto.
    - intros (c & Hc' & Hr). exists (schedule (fst r) mod workers)%nat. split.
      + apply in_seq. split; [lia |]. simpl.
        apply Nat.mod_upper_bound. lia.
      + unfold run. apply in_map_iff. exists (fst r, c). split.
        * destruct r; simpl in *. now subst.
        * apply filter_In. split; [| apply Nat.eqb_refl].
          apply In_numbered. rewrite Nat.sub_0_r. split; [lia | exact Hc']. }
  rewrite (flat_map_nth (map func) _ tasks 0).
  - rewrite <- concat_map. unfold tasks. now rewrite slices_concat.
  - intros k c Hk. simpl.
    destruct (find _ _) as [r |] eqn:Hfind.
    + apply find_some in Hfind. destruct Hfind as [Hr Hfst].
      apply Nat.eqb_eq in Hfst. apply Hin in Hr.
      destruct Hr as (c' & Hc' & ->). congruence.
    + exfalso.
      assert (Hr : In (k, map func c) (flat_map run (seq 0 workers))).
      { apply Hin. exists c. auto. }
      apply (find_none _ _ Hfind) in Hr. simpl in Hr.
      now rewrite Nat.eqb_refl in Hr.
Qed.

Lemma parallel_hash_map {A B} (rt : runtime) (func : A -> B) (items : list A)
  (workers : Z) (chunksize : nat) :
  (0 < chunksize)%nat ->
  parallel_hash rt func items workers chunksize = map func items.
Proof.
  intros Hc. unfold parallel_hash, tqdm.
  destruct (MULTIPROCESSING_AVAILABLE rt && (1 <? workers)) eqn:Hpar.
  - apply andb_true_iff in Hpar. destruct Hpar as [_ Hpar].
    apply Z.ltb_lt in Hpar. rewrite Pool_imap_map by lia.
    now destruct (TQDM_AVAILABLE rt).
  - now destruct (TQDM_AVAILABLE rt).
Qed.

(** ** The sort of the planner *)

Section Sorting.
Context {A : Type} (key : A -> age).

Lemma age_ltb_asym (a b : age) : age_ltb a b = true -> age_ltb b a = false.
Proof. destruct a, b; simpl; try reflexivity; try discriminate; lia. Qed.

Lemma age_ltb_false_trans (a b c : age) :
  age_ltb b a = false -> age_ltb c b = false -> age_ltb c a = false.
Proof. destruct a, b, c; simpl; try reflexivity; try discriminate; lia. Qed.

Lemma age_eqb_eq (a b : age) : age_eqb a b = true <-> a = b.
Proof.
  destruct a, b; simpl; split; try discriminate; try reflexivity.
  - intros H. apply Z.eqb_eq in H. now subst.
  - intros H. inversion H. apply Z.eqb_refl.
Qed.

Lemma age_ltb_irrefl (a : age) : age_ltb a a = false.
Proof. destruct a; simpl; [apply Z.ltb_irrefl | reflexivity]. Qed.

Lemma insert_by_key_perm (x : A) (l : list A) :
  Permutation (insert_by_key key x l) (x :: l).
Proof.
  induction l as [| y l IH]; simpl; [reflexivity |].
  destruct (age_ltb (key y) (key x)); [| reflexivity].
  rewrite IH. apply perm_swap.
Qed.

Lemma sorted_perm (l : list A) : Permutation (sorted key l) l.
Proof.
  induction l as [| x l IH]; simpl; [reflexivity |].
  rewrite insert_by_key_perm. now apply perm_skip.
Qed.

Lemma sorted_In (l : list A) (x : A) : In x (sorted key l) <-> In x l.
Proof.
  split; apply Permutation_in; [| symmetry]; apply sorted_perm.
Qed.

Lemma sorted_length (l : list A) : length (sorted key l) = length l.
Proof. apply Permutation_length, sorted_perm. Qed.

Lemma insert_by_key_sorted (x : A) (l : list A) :
  StronglySorted (not_after key) l -> StronglySorted (not_after key) (insert_by_key key x l).
Proof.
  induction 1 as [| y l Hl IH Hy]; simpl.
  - constructor; constructor.
  - destruct (age_ltb (key y) (key x)) eqn:Hyx.
    + constructor; [exact IH |].
      apply Forall_forall. intros z Hz.
      apply (Permutation_in _ (insert_by_key_perm x l)) in Hz.
      destruct Hz as [<- | Hz].
      * now apply age_ltb_asym.
      * rewrite Forall_forall in Hy. now apply Hy.
    + constructor; [now constructor |].
      constructor; [exact Hyx |].
      apply Forall_forall. intros z Hz. rewrite Forall_forall in Hy.
      unfold not_after in *.
      apply (age_ltb_false_trans _ (key y)); [exact Hyx | now apply Hy].
Qed.

Lemma sorted_sorted (l : list A) : StronglySorted (not_after key) (sorted key l).
Proof.
  induction l as [| x l IH]; simpl; [constructor |].
  now apply insert_by_key_sorted.
Qed.

(** The head of the sorted list is not after any element. *)
Lemma sorted_head_first (l : list A) (k : A) (rest : list A) :
  sorted key l = k :: rest ->
  forall x, In x l -> age_ltb (key x) (key k) = false.
Proof.
  intros Hs x Hx. apply sorted_In in Hx. rewrite Hs in Hx.
  pose proof (sorted_sorted l) as Hsorted. rewrite Hs in Hsorted.
  inversion Hsorted as [| ? ? _ Hall]; subst.
  destruct Hx as [<- | Hx]; [apply age_ltb_irrefl |].
  rewrite Forall_forall in Hall. now apply Hall.
Qed.

(** Stability: the elements of one key keep their order. *)
Lemma insert_by_key_stable (a : age) (x : A) (l : list A) :
  filter (fun y => age_eqb (key y) a) (insert_by_key key x l)
  = filter (fun y => age_eqb (key y) a) (x :: l).
Proof.
  induction l as [| y l IH]; [reflexivity |].
  cbn [insert_by_key]. destruct (age_ltb (key y) (key x)) eqn:Hyx;
    [| reflexivity].
  cbn [filter] in *. rewrite IH.
  destruct (age_eqb (key x) a) eqn:Hx; [| reflexivity].
  destruct (age_eqb (key y) a) eqn:Hy; [| reflexivity].
  apply age_eqb_eq in Hx, Hy. rewrite Hx, Hy, age_ltb_irrefl in Hyx.
  discriminate.
Qed.

Lemma sorted_stable (a : age) (l : list A) :
  filter (fun y => age_eqb (key y) a) (sorted key l)
  = filter (fun y => age_eqb (key y) a) l.
Proof.
  induction l as [| x l IH]; [reflexivity |].
  cbn [sorted]. rewrite insert_by_key_stable. cbn [filter]. now rewrite IH.
Qed.
End Sorting.

(** ** Deletion planner *)

Lemma keep_file_In (fs : filesystem) (g : list Path) (k : Path) :
  keep_file fs g = Some k -> In k g.
Proof.
  unfold keep_file. intros H.
  destruct (sorted (get_file_age fs) g) as [| k' rest] eqn:Hs; [discriminate |].
  inversion H; subst. apply (sorted_In (get_file_age fs)). rewrite Hs. now left.
Qed.

(** A group with a readable member has a readable keep file. *)
Lemma keep_file_readable (fs : filesystem) (g : list Path) :
  (exists p, In p g /\ readable fs p) ->
  exists k, keep_file fs g = Some k /\ readable fs k.
Proof.
  intros (p & Hp & Hr). unfold keep_file.
  destruct (sorted (get_file_age fs) g) as [| k rest] eqn:Hs.
  - apply (sorted_In (get_file_age fs)) in Hp. rewrite Hs in Hp. destruct Hp.
  - exists k. split; [reflexivity |].
    pose proof (sorted_head_first _ _ _ _ Hs p Hp) as Hle.
    unfold readable, get_file_age in *.
    destruct (fs_stat fs k); [discriminate |].
    destruct (fs_stat fs p); [discriminate | congruence].
Qed.

Lemma analyze_group_Ok (fs : filesystem) (plan plan' : list decision)
  (st st' : statistics) (h : string) (g : list Path) :
  analyze_group fs (plan, st) (h, g) = Ok (plan', st') ->
  (exists k, keep_file fs g = Some k /\ readable fs k)
  /\ plan' = plan ++ group_decisions fs g
  /\ groups st' = groups st
  /\ total_files st' = total_files st + Z.of_nat (length g)
  /\ files_to_keep st' = files_to_keep st + 1
  /\ files_to_delete st' = files_to_delete st + (Z.of_nat (length g) - 1)
  /\ space_total st' = space_total st + keep_size fs g
  /\ space_wasted st'
     = space_wasted st + keep_size fs g * (Z.of_nat (length g) - 1).
Proof.
  unfold analyze_group, keep_size, keep_file, group_decisions, size_on_disk,
    readable.
  pose proof (sorted_length (get_file_age fs) g) as Hlen.
  destruct (sorted (get_file_age fs) g) as [| k newer]; [discriminate |].
  cbn [hd_error]. destruct (fs_stat fs k) as [s |] eqn:Hst; [| discriminate].
  intros H. inversion H; subst; clear H. cbn [length] in Hlen.
  replace (Z.of_nat (length g) - 1) with (Z.of_nat (length newer)) by lia.
  cbn. repeat split; try reflexivity. exists k. split; [reflexivity | congruence].
Qed.

Lemma analyze_group_returns (fs : filesystem) (acc : list decision * statistics)
  (h : string) (g : list Path) :
  (exists p, In p g /\ readable fs p) ->
  exists acc', analyze_group fs acc (h, g) = Ok acc'.
Proof.
  intros Hg. apply keep_file_readable in Hg. destruct Hg as (k & Hk & Hr).
  destruct acc as [plan st]. unfold analyze_group, keep_file, readable in *.
  destruct (sorted (get_file_age fs) g) as [| k' newer]; [discriminate |].
  cbn [hd_error] in Hk. inversion Hk; subst.
  destruct (fs_stat fs k); [eauto | congruence].
Qed.

(** What the loop of the planner has done when it ends without raising. *)
Lemma analyze_loop_Ok (fs : filesystem) (d : dict string (list Path)) :
  forall plan st plan' st',
    for_each (analyze_group fs) d (plan, st) = Ok (plan', st') ->
    (forall h g, In (h, g) d ->
                 exists k, keep_file fs g = Some k /\ readable fs k)
    /\ plan' = plan ++ flat_map (fun item => group_decisions fs (snd item)) d
    /\ groups st' = groups st
    /\ space_total st'
       = space_total st + Zsum (map (fun item => keep_size fs (snd item)) d)
    /\ space_wasted st'
       = space_wasted st
         + Zsum (map (fun item => keep_size fs (snd item)
                                  * (Z.of_nat (length (snd item)) - 1)) d).
Proof.
  induction d as [| [h g] d IH]; intros plan st plan' st' H.
  - simpl in H. inversion H; subst. simpl. rewrite app_nil_r.
    split; [intros ? ? [] | repeat split; lia].
  - cbn [for_each] in H. apply bind_Ok in H.
    destruct H as ([plan1 st1] & H1 & H).
    apply analyze_group_Ok in H1.
    destruct H1 as (Hk & -> & Hg1 & _ & _ & _ & Ht1 & Hw1).
    apply IH in H. destruct H as (Hks & -> & Hg & Ht & Hw).
    unfold Zsum in *. cbn [flat_map map fold_right snd].
    rewrite Ht, Hw, Ht1, Hw1, Hg, Hg1, app_assoc.
    split; [| repeat split; lia].
    intros h' g' [Heq | Hin]; [inversion Heq; now subst | eauto].
Qed.

Lemma analyze_loop_returns (fs : filesystem) (d : dict string (list Path)) :
  (forall h g, In (h, g) d -> exists p, In p g /\ readable fs p) ->
  forall acc, exists acc', for_each (analyze_group fs) d acc = Ok acc'.
Proof.
  induction d as [| [h g] d IH]; intros Hd acc; simpl; [eauto |].
  destruct (analyze_group_returns fs acc h g) as [acc1 ->];
    [apply (Hd h); now left |].
  simpl. apply IH. intros h' g' Hin. apply (Hd h' g'). now right.
Qed.

(** The planner returns exactly when every group has a member whose
    metadata can be read. *)
Lemma analyze_duplicates_returns_iff (fs : filesystem)
  (d : dict string (list Path)) :
  (exists r, analyze_duplicates fs d = Ok r)
  <-> (forall h g, In (h, g) d -> exists p, In p g /\ readable fs p).
Proof.
  unfold analyze_duplicates. split.
  - intros [[plan st] H] h g Hin. apply analyze_loop_Ok in H.
    destruct H as (Hk & _). destruct (Hk h g Hin) as (k & Hkf & Hr).
    exists k. split; [now apply keep_file_In in Hkf | exact Hr].
  - intros Hd. now apply analyze_loop_returns.
Qed.

Lemma group_decisions_In_plan (fs : filesystem) (d : dict string (list Path))
  (plan : list decision) (stats : statistics) (h : string) (g : list Path) :
  analyze_duplicates fs d = Ok (plan, stats) ->
  In (h, g) d ->
  forall dec, In dec (group_decisions fs g) -> In dec plan.
Proof.
  unfold analyze_duplicates. intros H Hin dec Hdec.
  apply analyze_loop_Ok in H. destruct H as (_ & -> & _). simpl.
  apply in_flat_map. exists (h, g). auto.
Qed.

(** C2. When every group has a member whose metadata can be read, the
    planner returns a plan; in it, for every group whose members all have
    a readable modification time, the keep file is a member of the group,
    no member is older than it, and every other member is a delete entry
    that refers to it. *)
Theorem keep_is_oldest_member (fs : filesystem) (d : dict string (list Path)) :
  (forall h g, In (h, g) d -> exists p, In p g /\ readable fs p) ->
  exists plan stats,
    analyze_duplicates fs d = Ok (plan, stats)
    /\ forall h g,
        In (h, g) d ->
        (forall p, In p g -> readable fs p) ->
        exists keep sk,
          keep_file fs g = Some keep
          /\ In keep g
          /\ fs_stat fs keep = Some sk
          /\ (forall p, In p g ->
                        exists s, fs_stat fs p = Some s
                                  /\ st_mtime sk <= st_mtime s)
          /\ (forall p, In p g -> p <> keep ->
                        In (p, keep, st_size sk) plan).
Proof.
  intros Hd.
  destruct (proj2 (analyze_duplicates_returns_iff fs d) Hd) as [[plan stats] H].
  exists plan, stats. split; [exact H |].
  intros h g Hin Hall.
  pose proof (group_decisions_In_plan fs d plan stats h g H Hin) as Hplan.
  unfold keep_file, group_decisions, size_on_disk in *.
  destruct (sorted (get_file_age fs) g) as [| keep newer] eqn:Hs.
  - destruct (Hd h g Hin) as (p & Hp & _).
    apply (sorted_In (get_file_age fs)) in Hp. rewrite Hs in Hp. destruct Hp.
  - assert (Hkeep : In keep g).
    { apply (sorted_In (get_file_age fs)). rewrite Hs. now left. }
    pose proof (Hall keep Hkeep) as Hr. unfold readable in Hr.
    destruct (fs_stat fs keep) as [sk |] eqn:Hsk; [| congruence].
    exists keep, sk. repeat split; try assumption.
    + intros p Hp. pose proof (sorted_head_first _ _ _ _ Hs p Hp) as Hle.
      pose proof (Hall p Hp) as Hrp. unfold readable, get_file_age in *.
      rewrite Hsk in Hle.
      destruct (fs_stat fs p) as [s |]; [| congruence].
      exists s. split; [reflexivity |]. simpl in Hle.
      apply Z.ltb_ge in Hle. exact Hle.
    + intros p Hp Hne. apply Hplan.
      apply (sorted_In (get_file_age fs)) in Hp. rewrite Hs in Hp.
      destruct Hp as [-> | Hp]; [congruence |].
      apply in_map_iff. exists p. auto.
Qed.

Lemma keep_is_oldest_member_witness :
  exists plan stats,
    analyze_duplicates sample_disk sample_groups = Ok (plan, stats)
    /\ forall h g,
        In (h, g) sample_groups ->
        (forall p, In p g -> readable sample_disk p) ->
        exists keep sk,
          keep_file sample_disk g = Some keep
          /\ In keep g
          /\ fs_stat sample_disk keep = Some sk
          /\ (forall p, In p g ->
                        exists s, fs_stat sample_disk p = Some s
                                  /\ st_mtime sk <= st_mtime s)
          /\ (forall p, In p g -> p <> keep ->
                        In (p, keep, st_size sk) plan).
Proof.
  apply (keep_is_oldest_member sample_disk sample_groups).
  intros h g [Heq | []]. inversion Heq; subst.
  exists "/r/a"%string. split; [now left | vm_compute; discriminate].
Defined.

(** C4. When the planner returns, [space_wasted] is the sum over the
    groups of the keep file's size times the number of other members, and
    [space_total] is the sum of the keep files' sizes; it returns whenever
    every group has a member whose metadata can be read. *)
Theorem space_statistics_sum (fs : filesystem) (d : dict string (list Path)) :
  (forall h g, In (h, g) d -> exists p, In p g /\ readable fs p) ->
  exists plan stats,
    analyze_duplicates fs d = Ok (plan, stats)
    /\ space_wasted stats
       = Zsum (map (fun item => keep_size fs (snd item)
                                * (Z.of_nat (length (snd item)) - 1)) d)
    /\ space_total stats
       = Zsum (map (fun item => keep_size fs (snd item)) d).
Proof.
  intros Hd.
  destruct (proj2 (analyze_duplicates_returns_iff fs d) Hd) as [[plan stats] H].
  exists plan, stats. split; [exact H |].
  unfold analyze_duplicates in H. apply analyze_loop_Ok in H.
  destruct H as (_ & _ & _ & Ht & Hw). cbn in Ht, Hw. now rewrite Ht, Hw.
Qed.

Lemma space_statistics_sum_witness :
  exists plan stats,
    analyze_duplicates sample_disk sample_groups = Ok (plan, stats)
    /\ space_wasted stats = 10 /\ space_total stats = 5.
Proof.
  destruct (space_statistics_sum sample_disk sample_groups)
    as (plan & stats & H & Hw & Ht).
  - intros h g [Heq | []]. inversion Heq; subst.
    exists "/r/a"%string. split; [now left | vm_compute; discriminate].
  - exists plan, stats. split; [exact H |]. rewrite Hw, Ht.
    split; vm_compute; reflexivity.
Defined.

(** *** What the planner reads *)

Lemma insert_by_key_ext {A} (key key' : A -> age) (x : A) (l : list A) :
  key x = key' x -> (forall y, In y l -> key y = key' y) ->
  insert_by_key key x l = insert_by_key key' x l.
Proof.
  intros Hx. induction l as [| y l IH]; intros Hl; [reflexivity |].
  simpl. rewrite <- Hx, <- (Hl y) by now left.
  rewrite IH; [reflexivity |]. intros z Hz. apply Hl. now right.
Qed.

Lemma sorted_ext {A} (key key' : A -> age) (l : list A) :
  (forall y, In y l -> key y = key' y) -> sorted key l = sorted key' l.
Proof.
  induction l as [| x l IH]; intros Hl; [reflexivity |].
  simpl. rewrite <- IH by (intros y Hy; apply Hl; now right).
  apply insert_by_key_ext; [apply Hl; now left |].
  intros y Hy. apply Hl. right. exact (proj1 (sorted_In key l y) Hy).
Qed.

Lemma for_each_ext {A S} (body body' : S -> A -> result S) (l : list A) :
  (forall s x, In x l -> body s x = body' s x) ->
  forall s, for_each body l s = for_each body' l s.
Proof.
  induction l as [| x l IH]; intros Hb s; [reflexivity |].
  simpl. rewrite (Hb s x) by now left.
  destruct (body' s x); simpl; [| reflexivity].
  apply IH. intros s' y Hy. apply Hb. now right.
Qed.

Lemma analyze_group_ext (fs fs' : filesystem)
  (acc : list decision * statistics) (h : string) (g : list Path) :
  (forall p, In p g -> fs_stat fs' p = fs_stat fs p) ->
  analyze_group fs' acc (h, g) = analyze_group fs acc (h, g).
Proof.
  intros Hg. destruct acc as [plan st]. unfold analyze_group.
  rewrite (sorted_ext (get_file_age fs') (get_file_age fs)).
  - destruct (sorted (get_file_age fs) g) as [| k newer] eqn:Hs;
      [reflexivity |].
    rewrite Hg; [reflexivity |].
    apply (sorted_In (get_file_age fs)). rewrite Hs. now left.
  - intros p Hp. unfold get_file_age. now rewrite Hg.
Qed.

(** C3, as the code has it.  The planner reads metadata while it plans:
    its result depends on the filesystem through the [stat] of the members
    of the groups and through nothing else, and the size in each decision
    is the size of its keep file as [stat] gives it at planning time. *)
Theorem planner_reads_member_metadata (fs : filesystem)
  (d : dict string (list Path)) :
  (forall fs',
      (forall h g p, In (h, g) d -> In p g -> fs_stat fs' p = fs_stat fs p) ->
      analyze_duplicates fs' d = analyze_duplicates fs d)
  /\ (forall plan stats,
         analyze_duplicates fs d = Ok (plan, stats) ->
         forall dec, In dec plan ->
                     exists s, fs_stat fs (keep_target dec) = Some s
                               /\ snd dec = st_size s).
Proof.
  split.
  - intros fs' Hsame. unfold analyze_duplicates.
    apply for_each_ext. intros acc [h g] Hin.
    apply analyze_group_ext. intros p Hp. now apply (Hsame h g).
  - intros plan stats H dec Hdec. unfold analyze_duplicates in H.
    apply analyze_loop_Ok in H. destruct H as (Hk & -> & _).
    simpl in Hdec. apply in_flat_map in Hdec.
    destruct Hdec as ([h g] & Hin & Hdec). simpl in Hdec.
    destruct (Hk h g Hin) as (k & Hkf & Hr).
    unfold group_decisions, keep_file, size_on_disk, readable in *.
    destruct (sorted (get_file_age fs) g) as [| k' newer]; [destruct Hdec |].
    simpl in Hkf. inversion Hkf; subst k'.
    apply in_map_iff in Hdec. destruct Hdec as (p & <- & _).
    unfold keep_target. simpl.
    destruct (fs_stat fs k) as [s |]; [eauto | congruence].
Qed.

Lemma planner_reads_member_metadata_witness :
  analyze_duplicates pair_disk_later pair_groups
  = analyze_duplicates
      (disk [("/r/a", (20, bytes_of "hello, world"));
             ("/r/b", (50, bytes_of "hello"));
             ("/r/c", (1, bytes_of "other"))]%string)
      pair_groups
  /\ exists s, fs_stat pair_disk_later "/r/a"%string = Some s
               /\ 12 = st_size s.
Proof.
  destruct (planner_reads_member_metadata pair_disk_later pair_groups)
    as [Hframe Hsize].
  split.
  - symmetry. apply Hframe.
    intros h g p [Heq | []] Hp. inversion Heq; subst.
    destruct Hp as [<- | [<- | []]]; reflexivity.
  - apply (Hsize [("/r/b", "/r/a", 12)]%string
                 {| groups := 1; total_files := 2; files_to_delete := 1;
                    files_to_keep := 1; space_total := 12;
                    space_wasted := 12 |}
                 eq_refl ("/r/b", "/r/a", 12)%string).
    now left.
Defined.

(** C3, as stated, fails: the scan finds the two copies when both hold
    five bytes; planned after the older copy has grown, the decision
    carries the twelve bytes read at planning time. *)
Lemma planner_rereads_size :
  find_duplicates one_core (steady pair_disk) pair_tree "/r" [] None
  = Ok pair_groups
  /\ analyze_duplicates pair_disk pair_groups
     = Ok ([("/r/b", "/r/a", 5)]%string,
           {| groups := 1; total_files := 2; files_to_delete := 1;
              files_to_keep := 1; space_total := 5; space_wasted := 5 |})
  /\ analyze_duplicates pair_disk_later pair_groups
     = Ok ([("/r/b", "/r/a", 12)]%string,
           {| groups := 1; total_files := 2; files_to_delete := 1;
              files_to_keep := 1; space_total := 12; space_wasted := 12 |}).
Proof. repeat split; vm_compute; reflexivity. Qed.

(** C10 fails on the code: a tree whose only duplicates are two empty
    files yields one group, both space statistics are zero, and the
    percentage of [print_statistics] divides by zero. *)
Theorem print_statistics_zero_byte_groups :
  find_duplicates one_core (steady empty_pair_disk) pair_tree "/r" [] None
  = Ok empty_pair_groups
  /\ analyze_duplicates empty_pair_disk empty_pair_groups
     = Ok ([("/r/b", "/r/a", 0)]%string,
           {| groups := 1; total_files := 2; files_to_delete := 1;
              files_to_keep := 1; space_total := 0; space_wasted := 0 |})
  /\ forall stdout,
      (r <- analyze_duplicates empty_pair_disk empty_pair_groups ;;
       print_statistics stdout (snd r) (fst r))
      = Raise ZeroDivisionError.
Proof. repeat split; intros; vm_compute; reflexivity. Qed.

(** ** Dictionaries of lists *)

Section Several.
Context {K A : Type} `{EqDec K}.

(** The groups of several elements. *)
Lemma flatten_several_incl (d : dict K (list A)) (x : A) :
  In x (flatten_several d) -> In x (concat (values d)).
Proof.
  unfold flatten_several. rewrite !in_concat.
  intros (vs & Hvs & Hx). apply filter_In in Hvs. exists vs. tauto.
Qed.

Lemma flatten_several_NoDup (d : dict K (list A)) :
  NoDup (concat (values d)) -> NoDup (flatten_several d).
Proof.
  unfold flatten_several, values.
  induction d as [| [k vs] d IH]; simpl; intros Hd; [constructor |].
  pose proof (NoDup_app_remove_l _ _ Hd) as Hd'.
  destruct (several vs); [| now apply IH].
  simpl. apply NoDup_app; [now apply NoDup_app_remove_r in Hd | now apply IH |].
  intros a Ha Hin. apply (flatten_several_incl d) in Hin.
  revert Hd Ha Hin. unfold values. clear. intros Hd Ha Hin.
  induction vs as [| v vs IHvs]; [destruct Ha |].
  simpl in Hd. inversion Hd as [| ? ? Hnotin Hd']; subst.
  destruct Ha as [-> | Ha]; [| now apply IHvs].
  apply Hnotin. apply in_or_app. now right.
Qed.

Lemma flatten_several_length (d : dict K (list A)) :
  (length (flatten_several d) <= length (concat (values d)))%nat.
Proof.
  unfold flatten_several, values.
  induction d as [| [k vs] d IH]; simpl; [lia |].
  destruct (several vs); simpl; rewrite ?length_app; lia.
Qed.

Lemma values_filter_several (d : dict K (list A)) :
  concat (values (filter (fun e => several (snd e)) d)) = flatten_several d.
Proof.
  unfold flatten_several, values.
  induction d as [| [k vs] d IH]; simpl; [reflexivity |].
  destruct (several vs); simpl; now rewrite IH.
Qed.

(** Where a property holds only for elements of one key, it selects from
    the flattened groups what it selects from that key's group. *)
Lemma filter_flatten_none (P : A -> bool) (d : dict K (list A)) :
  (forall k vs, In (k, vs) d -> filter P vs = []) ->
  filter P (flatten_several d) = [].
Proof.
  unfold flatten_several, values.
  induction d as [| [k vs] d IH]; simpl; intros Hd; [reflexivity |].
  assert (Hrest : filter P (concat (filter several (map snd d))) = []).
  { apply IH. intros k' vs' Hin. apply (Hd k' vs'). now right. }
  destruct (several vs); simpl; [| exact Hrest].
  rewrite filter_app, Hrest, (Hd k vs) by now left. reflexivity.
Qed.

Lemma filter_flatten_one_key (P : A -> bool) (k : K) (d : dict K (list A)) :
  NoDup (map fst d) ->
  (forall k' vs, In (k', vs) d -> k' <> k -> filter P vs = []) ->
  filter P (flatten_several d)
  = if several (dd_get k d) then filter P (dd_get k d) else [].
Proof.
  induction d as [| [k0 vs] d IH]; intros Hkeys Hd; [reflexivity |].
  simpl in Hkeys. inversion Hkeys as [| ? ? Hnotin Hkeys']; subst.
  unfold flatten_several, values in *. simpl.
  destruct (eq_dec k0 k) as [-> | Hne].
  - assert (Hrest : filter P (concat (filter several (map snd d))) = []).
    { apply filter_flatten_none. intros k' vs' Hin.
      apply (Hd k' vs'); [now right |]. intros ->.
      apply Hnotin. apply in_map_iff. now exists (k, vs'). }
    destruct (several vs); simpl; [| exact Hrest].
    now rewrite filter_app, Hrest, app_nil_r.
  - rewrite <- IH; [| exact Hkeys' |
                    intros k' vs' Hin; apply (Hd k' vs'); now right].
    destruct (several vs); simpl; [| reflexivity].
    rewrite filter_app, (Hd k0 vs) by (now left || exact Hne). reflexivity.
Qed.

Lemma filter_filter_implied (P Q : A -> bool) (l : list A) :
  (forall x, In x l -> P x = true -> Q x = true) ->
  filter P (filter Q l) = filter P l.
Proof.
  induction l as [| x l IH]; intros HPQ; [reflexivity |]. simpl.
  assert (IH' : filter P (filter Q l) = filter P l).
  { apply IH. intros y Hy. apply HPQ. now right. }
  destruct (Q x) eqn:HQ; simpl.
  - now rewrite IH'.
  - destruct (P x) eqn:HP; [| exact IH'].
    rewrite (HPQ x) in HQ by (now left || exact HP). discriminate.
Qed.
End Several.

Section Grouping.
Context {K A : Type} `{EqDec K}.

Lemma dd_get_append (k k' : K) (v : A) (d : dict K (list A)) :
  dd_get k (dd_append k' v d)
  = if eq_dec k' k then dd_get k d ++ [v] else dd_get k d.
Proof.
  induction d as [| [k0 vs] d IH]; simpl.
  - destruct (eq_dec k' k); reflexivity.
  - destruct (eq_dec k0 k') as [-> | Hne]; simpl.
    + destruct (eq_dec k' k); reflexivity.
    + rewrite IH. destruct (eq_dec k0 k) as [-> | ?]; [| reflexivity].
      destruct (eq_dec k' k); [congruence | reflexivity].
Qed.

Lemma dd_append_keys (k : K) (v : A) (d : dict K (list A)) (k0 : K) :
  In k0 (map fst (dd_append k v d)) <-> k0 = k \/ In k0 (map fst d).
Proof.
  induction d as [| [k1 vs] d IH]; simpl.
  - intuition.
  - destruct (eq_dec k1 k) as [-> | Hne]; simpl; [intuition |].
    rewrite IH. intuition.
Qed.

Lemma dd_append_NoDup_keys (k : K) (v : A) (d : dict K (list A)) :
  NoDup (map fst d) -> NoDup (map fst (dd_append k v d)).
Proof.
  induction d as [| [k1 vs] d IH]; simpl; intros Hd.
  - constructor; [intros [] | constructor].
  - inversion Hd as [| ? ? Hnotin Hd']; subst.
    destruct (eq_dec k1 k) as [-> | Hne]; simpl; [now constructor |].
    constructor; [| now apply IH].
    rewrite dd_append_keys. intuition.
Qed.

Lemma dd_append_perm (k : K) (v : A) (d : dict K (list A)) :
  Permutation (concat (values (dd_append k v d))) (v :: concat (values d)).
Proof.
  unfold values. induction d as [| [k1 vs] d IH]; simpl; [reflexivity |].
  destruct (eq_dec k1 k); simpl.
  - rewrite <- app_assoc. simpl. symmetry. apply Permutation_middle.
  - rewrite IH. symmetry. apply Permutation_middle.
Qed.

Lemma In_dd_get (k : K) (vs : list A) (d : dict K (list A)) :
  NoDup (map fst d) -> In (k, vs) d -> dd_get k d = vs.
Proof.
  induction d as [| [k1 vs1] d IH]; simpl; intros Hd Hin; [destruct Hin |].
  inversion Hd as [| ? ? Hnotin Hd']; subst.
  destruct Hin as [Heq | Hin].
  - inversion Heq; subst. destruct (eq_dec k k); congruence.
  - destruct (eq_dec k1 k) as [-> | ?]; [| now apply IH].
    exfalso. apply Hnotin. apply in_map_iff. now exists (k, vs).
Qed.

Variable key : A -> option K.

Lemma group_fold_get (k : K) (l : list A) :
  forall d, dd_get k (fold_left (group_step key) l d)
            = dd_get k d ++ filter (has_key key k) l.
Proof.
  induction l as [| x l IH]; intros d; simpl; [now rewrite app_nil_r |].
  rewrite IH. unfold group_step, has_key.
  destruct (key x) as [k' |]; [| reflexivity].
  rewrite dd_get_append.
  destruct (eq_dec k' k); [now rewrite <- app_assoc | reflexivity].
Qed.

Lemma group_fold_NoDup_keys (l : list A) :
  forall d, NoDup (map fst d) ->
            NoDup (map fst (fold_left (group_step key) l d)).
Proof.
  induction l as [| x l IH]; intros d Hd; simpl; [exact Hd |].
  apply IH. unfold group_step.
  destruct (key x); [now apply dd_append_NoDup_keys | exact Hd].
Qed.

Lemma group_fold_perm (l : list A) :
  forall d, Permutation
              (concat (values (fold_left (group_step key) l d)))
              (concat (values d)
               ++ filter (has_some key) l).
Proof.
  induction l as [| x l IH]; intros d; simpl; [now rewrite app_nil_r |].
  rewrite IH. unfold group_step, has_some.
  destruct (key x) as [k |]; [| reflexivity].
  rewrite dd_append_perm. simpl. apply Permutation_middle.
Qed.

Lemma group_by_NoDup_keys (l : list A) : NoDup (map fst (group_by key l)).
Proof. apply group_fold_NoDup_keys. constructor. Qed.

(** A group holds the elements of its key, in the order of the input. *)
Lemma group_by_get (k : K) (l : list A) :
  dd_get k (group_by key l) = filter (has_key key k) l.
Proof. unfold group_by. now rewrite group_fold_get. Qed.

Lemma group_by_In (k : K) (vs : list A) (l : list A) :
  In (k, vs) (group_by key l) -> vs = filter (has_key key k) l.
Proof.
  intros Hin. rewrite <- group_by_get. symmetry.
  apply In_dd_get; [apply group_by_NoDup_keys | exact Hin].
Qed.

Lemma group_by_perm (l : list A) :
  Permutation (concat (values (group_by key l)))
              (filter (has_some key) l).
Proof. unfold group_by. now rewrite group_fold_perm. Qed.

Lemma group_by_incl (l : list A) (x : A) :
  In x (concat (values (group_by key l))) -> In x l.
Proof.
  intros Hx. apply (Permutation_in _ (group_by_perm l)) in Hx.
  now apply filter_In in Hx.
Qed.

Lemma group_by_NoDup (l : list A) :
  NoDup l -> NoDup (concat (values (group_by key l))).
Proof.
  intros Hl. apply (Permutation_NoDup (Permutation_sym (group_by_perm l))).
  now apply NoDup_filter.
Qed.

Lemma filter_flatten_group_by (P : A -> bool) (k : K) (l : list A) :
  (forall x, In x l -> P x = true -> key x = Some k) ->
  filter P (flatten_several (group_by key l))
  = if several (filter (has_key key k) l) then filter P l else [].
Proof.
  intros HP.
  rewrite (filter_flatten_one_key P k); [| apply group_by_NoDup_keys |].
  - rewrite group_by_get.
    destruct (several _); [| reflexivity].
    apply filter_filter_implied. intros x Hx HPx. unfold has_key.
    rewrite (HP x Hx HPx). destruct (eq_dec k k); congruence.
  - intros k' vs Hin Hne. apply group_by_In in Hin. subst vs.
    induction l as [| x l IH]; [reflexivity |]. simpl.
    assert (IH' : filter P (filter (has_key key k') l) = []).
    { apply IH. intros y Hy. apply HP. now right. }
    destruct (has_key key k' x) eqn:Hk; [| exact IH'].
    simpl. destruct (P x) eqn:HPx; [| exact IH'].
    unfold has_key in Hk. rewrite (HP x) in Hk by (now left || exact HPx).
    destruct (eq_dec k k'); [congruence | discriminate].
Qed.
End Grouping.

(** ** Duplicate funnel *)

Lemma tree_ind (P : tree -> Prop) :
  (forall files subdirs,
      Forall (fun entry => P (snd entry)) subdirs -> P (Dir files subdirs)) ->
  forall t, P t.
Proof.
  intros HDir. fix IH 1. intros [files subdirs]. apply HDir.
  induction subdirs as [| [name sub] rest IHrest]; constructor;
    [apply IH | exact IHrest].
Qed.

Lemma index_file_path (fs : filesystem) (root : string) (files : list string) :
  forall st, fold_left (index_file fs root) files st
             = fold_left (index_path fs) (map (path_join root) files) st.
Proof.
  induction files as [| f files IH]; intros st; [reflexivity |].
  simpl. rewrite <- IH. f_equal.
Qed.

(** Phase 1 runs the loop body on the visited files, in order. *)
Lemma os_walk_index (fs : filesystem) (skip_patterns : list string) (t : tree) :
  forall top st,
    os_walk (index_directory fs skip_patterns) top t st
    = fold_left (index_path fs) (visited_files skip_patterns top t) st.
Proof.
  induction t as [files subdirs IH] using tree_ind. intros top st.
  cbn [os_walk visited_files]. unfold index_directory.
  destruct (should_skip_directory top skip_patterns).
  - clear IH. induction subdirs as [| entry rest IHrest]; [reflexivity |].
    cbn [fold_left].
    destruct (in_dec string_dec (fst entry) []) as [[] |]. exact IHrest.
  - rewrite fold_left_app, <- index_file_path.
    generalize (fold_left (index_file fs top) files st) as s.
    assert (Hnames : forall entry, In entry subdirs ->
                                   In (fst entry) (map fst subdirs))
      by (intros entry; apply in_map).
    revert Hnames. generalize (map fst subdirs) as dirs. intros dirs Hnames.
    induction subdirs as [| entry rest IHrest]; intros s; [reflexivity |].
    inversion IH as [| ? ? Hentry Hrest]; subst.
    cbn [fold_left flat_map]. rewrite fold_left_app.
    destruct (in_dec string_dec (fst entry) dirs) as [_ | Hno].
    + rewrite Hentry. apply IHrest; [exact Hrest |].
      intros e He. apply Hnames. now right.
    + exfalso. apply Hno, Hnames. now left.
Qed.

Lemma index_path_fold (fs : filesystem) (l : list Path) :
  forall size_map total_files total_size,
    fst (fst (fold_left (index_path fs) l (size_map, total_files, total_size)))
    = fold_left (group_step (size_key fs)) l size_map
    /\ snd (fst (fold_left (index_path fs) l
                           (size_map, total_files, total_size)))
       = total_files + Z.of_nat (length (filter (has_some (size_key fs)) l)).
Proof.
  induction l as [| p l IH]; intros sm tf ts; cbn [fold_left filter].
  - simpl. split; [reflexivity | lia].
  - destruct (fs_stat fs p) as [s |] eqn:Hst.
    + assert (Hpath : index_path fs (sm, tf, ts) p
                      = (dd_append (st_size s) p sm, tf + 1, ts + st_size s))
        by (unfold index_path; now rewrite Hst).
      assert (Hstep : group_step (size_key fs) sm p
                      = dd_append (st_size s) p sm)
        by (unfold group_step, size_key; now rewrite Hst).
      assert (Hsome : has_some (size_key fs) p = true)
        by (unfold has_some, size_key; now rewrite Hst).
      rewrite Hpath, Hstep, Hsome. cbn [length].
      destruct (IH (dd_append (st_size s) p sm) (tf + 1) (ts + st_size s))
        as [Hsm Htf].
      split; [exact Hsm | rewrite Htf; lia].
    + assert (Hpath : index_path fs (sm, tf, ts) p = (sm, tf, ts))
        by (unfold index_path; now rewrite Hst).
      assert (Hstep : group_step (size_key fs) sm p = sm)
        by (unfold group_step, size_key; now rewrite Hst).
      assert (Hsome : has_some (size_key fs) p = false)
        by (unfold has_some, size_key; now rewrite Hst).
      rewrite Hpath, Hstep, Hsome. apply IH.
Qed.

Lemma index_by_size_spec (fs : filesystem) (skip_patterns : list string)
  (root_dir : string) (t : tree) :
  let st := index_by_size fs skip_patterns root_dir t in
  fst (fst st) = group_by (size_key fs) (visited_files skip_patterns root_dir t)
  /\ snd (fst st) = Z.of_nat (length (concat (values (fst (fst st))))).
Proof.
  unfold index_by_size. rewrite os_walk_index. cbn zeta.
  destruct (index_path_fold fs (visited_files skip_patterns root_dir t) [] 0 0)
    as [Hsm Htf].
  split; [exact Hsm |].
  etransitivity; [exact Htf |].
  apply (f_equal (fun d => Z.of_nat (length (concat (values d))))) in Hsm.
  etransitivity; [| symmetry; exact Hsm].
  change (fold_left (group_step (size_key fs))
                    (visited_files skip_patterns root_dir t) [])
    with (group_by (size_key fs) (visited_files skip_patterns root_dir t)).
  rewrite (Permutation_length (group_by_perm (size_key fs) _)). lia.
Qed.

Lemma hash_file_wrapper_quick (fs : filesystem) (l : list Path) :
  map (hash_file_wrapper fs "quick") l
  = map (fun p => (p, calculate_quick_hash fs p)) l.
Proof. reflexivity. Qed.

Lemma hash_file_wrapper_full (fs : filesystem) (l : list Path) :
  map (hash_file_wrapper fs "full") l
  = map (fun p => (p, calculate_full_hash fs p)) l.
Proof. reflexivity. Qed.

(** When the loop that fills [quick_map] ends without raising it has
    grouped the candidates under (size, quick hash). *)
Lemma regroup_quick_Ok (w : world) (l : list Path) :
  forall d qm,
    for_each (regroup_quick (at_regroup w))
             (map (fun p => (p, calculate_quick_hash (at_quick w) p)) l) d
    = Ok qm ->
    qm = fold_left (group_step (quick_key w)) l d.
Proof.
  induction l as [| p l IH]; intros d qm H; simpl in H.
  - now inversion H.
  - apply bind_Ok in H. destruct H as (d1 & H1 & H). apply IH in H.
    subst qm. simpl. f_equal. unfold group_step, quick_key.
    destruct (truthy (calculate_quick_hash (at_quick w) p)) as [q |];
      [| now inversion H1].
    destruct (fs_stat (at_regroup w) p); now inversion H1.
Qed.


Lemma regroup_full_spec (fs : filesystem) (l : list Path) :
  forall d,
    fold_left regroup_full (map (fun p => (p, calculate_full_hash fs p)) l) d
    = fold_left (group_step (full_key fs)) l d.
Proof.
  induction l as [| p l IH]; intros d; [reflexivity |].
  simpl. rewrite IH. reflexivity.
Qed.

Lemma full_phase_spec (rt : runtime) (w : world) (workers : Z)
  (l : list Path) :
  full_phase rt w workers l
  = filter (fun hp => several (snd hp)) (group_by (full_key (at_full w)) l).
Proof.
  unfold full_phase. rewrite parallel_hash_map by lia.
  rewrite hash_file_wrapper_full, regroup_full_spec. reflexivity.
Qed.

Lemma true_div_Ok (a b : Z) : b <> 0 -> exists q, true_div a b = Ok q.
Proof.
  intros Hb. unfold true_div. apply Z.eqb_neq in Hb. rewrite Hb. eauto.
Qed.


(** The scan is the three regroupings; the steps that may raise are the
    loop that reads the sizes again and, when files are left for the full
    hash, the closing report. *)
Lemma find_duplicates_spec (rt : runtime) (w : world) (t : tree)
  (root_dir : string) (skip_patterns : list string) (workers : option Z) :
  find_duplicates rt w t root_dir skip_patterns workers
  = _ <- for_each (regroup_quick (at_regroup w))
                  (map (fun p => (p, calculate_quick_hash (at_quick w) p))
                       (size_candidates w skip_patterns root_dir t)) [] ;;
    match quick_candidates w skip_patterns root_dir t with
    | [] => Ok (funnel w skip_patterns root_dir t)
    | _ :: _ =>
        if Qeq_bool (Qminus (time_time rt 1) (time_time rt 0)) (inject_Z 0)
        then Raise ZeroDivisionError
        else Ok (funnel w skip_patterns root_dir t)
    end.
Proof.
  unfold find_duplicates, funnel, quick_candidates, size_candidates.
  pose proof (index_by_size_spec (at_index w) skip_patterns root_dir t)
    as [Hsm Htf]. cbn zeta in Hsm, Htf.
  destruct (index_by_size (at_index w) skip_patterns root_dir t)
    as [[size_map total_files] total_size].
  cbn [fst snd] in Hsm, Htf. subst size_map.
  set (visited := visited_files skip_patterns root_dir t) in *.
  pose proof (flatten_several_length
                (group_by (size_key (at_index w)) visited)) as Hlen.
  destruct (flatten_several (group_by (size_key (at_index w)) visited))
    as [| c candidates]; [reflexivity |].
  destruct (true_div_Ok (Z.of_nat (length (c :: candidates))) total_files)
    as [q ->]; [cbn [length] in Hlen; lia |].
  cbn [bind]. unfold quick_phase.
  rewrite parallel_hash_map, hash_file_wrapper_quick by lia.
  destruct (for_each _ _ _) as [quick_map | e] eqn:Hq; [| reflexivity].
  apply regroup_quick_Ok in Hq. subst quick_map. cbn [bind].
  change (fold_left (group_step (quick_key w)) (c :: candidates) [])
    with (group_by (quick_key w) (c :: candidates)).
  destruct (flatten_several (group_by (quick_key w) (c :: candidates)))
    as [| f final_candidates]; [reflexivity |].
  cbv zeta. unfold float_div.
  destruct (Qeq_bool _ _); [reflexivity |].
  cbn [bind]. now rewrite full_phase_spec.
Qed.

Lemma find_duplicates_Ok (rt : runtime) (w : world) (t : tree)
  (root_dir : string) (skip_patterns : list string) (workers : option Z)
  (d : dict string (list Path)) :
  find_duplicates rt w t root_dir skip_patterns workers = Ok d ->
  d = funnel w skip_patterns root_dir t.
Proof.
  rewrite find_duplicates_spec. intros H. apply bind_Ok in H.
  destruct H as (_ & _ & H).
  destruct (quick_candidates w skip_patterns root_dir t);
    [now inversion H |].
  destruct (Qeq_bool _ _); [discriminate | now inversion H].
Qed.


Lemma size_candidates_readable (w : world) (skip_patterns : list string)
  (root_dir : string) (t : tree) (p : Path) :
  In p (size_candidates w skip_patterns root_dir t) ->
  readable (at_index w) p.
Proof.
  unfold size_candidates. intros Hp. apply flatten_several_incl in Hp.
  apply (Permutation_in _ (group_by_perm _ _)) in Hp.
  apply filter_In in Hp. destruct Hp as [_ Hp].
  unfold has_some, size_key, readable in *.
  destruct (fs_stat (at_index w) p); [discriminate | discriminate].
Qed.




(** The scan raises as soon as one hashed candidate cannot be read again
    when the quick hashes are regrouped. *)
Lemma regroup_quick_raises (w : world) (l : list Path) :
  (exists p, In p l
             /\ truthy (calculate_quick_hash (at_quick w) p) <> None
             /\ fs_stat (at_regroup w) p = None) ->
  forall d,
    for_each (regroup_quick (at_regroup w))
             (map (fun p => (p, calculate_quick_hash (at_quick w) p)) l) d
    = Raise OSError.
Proof.
  induction l as [| x l IH]; intros (p & Hp & Hq & Hst) d; [destruct Hp |].
  cbn [map for_each]. unfold regroup_quick at 1.
  destruct (truthy (calculate_quick_hash (at_quick w) x)) as [q |] eqn:Hx.
  - destruct (fs_stat (at_regroup w) x) as [s |] eqn:Hsx; [| reflexivity].
    cbn [bind]. apply IH. exists p. destruct Hp as [-> | Hp]; [congruence |].
    auto.
  - cbn [bind]. apply IH. exists p. destruct Hp as [-> | Hp]; [congruence |].
    auto.
Qed.

Lemma find_duplicates_raises (rt : runtime) (w : world) (t : tree)
  (root_dir : string) (skip_patterns : list string) (workers : option Z)
  (p : Path) :
  In p (size_candidates w skip_patterns root_dir t) ->
  truthy (calculate_quick_hash (at_quick w) p) <> None ->
  fs_stat (at_regroup w) p = None ->
  find_duplicates rt w t root_dir skip_patterns workers = Raise OSError.
Proof.
  intros Hp Hq Hst. rewrite find_duplicates_spec.
  rewrite regroup_quick_raises; [reflexivity |]. exists p. auto.
Qed.

(** C1 fails on the code: a file that is indexed and hashed and then
    removed makes the loop that regroups by (size, quick hash) raise from
    its unguarded [stat], and the scan is aborted. *)
Theorem restat_aborts_scan :
  find_duplicates one_core vanishing_world pair_tree "/r" [] None
  = Raise OSError.
Proof. vm_compute. reflexivity. Qed.

(** ** Lists without repetition *)

Lemma NoDup_app_inv {A} (l1 l2 : list A) :
  NoDup (l1 ++ l2) ->
  NoDup l1 /\ NoDup l2 /\ (forall a, In a l1 -> ~ In a l2).
Proof.
  intros H. split; [now apply NoDup_app_remove_r in H |].
  split; [now apply NoDup_app_remove_l in H |].
  induction l1 as [| x l1 IH]; intros a Ha; [destruct Ha |].
  simpl in H. inversion H as [| ? ? Hnotin H']; subst.
  destruct Ha as [-> | Ha]; [| now apply IH].
  intros Hin. apply Hnotin. apply in_or_app. now right.
Qed.

Lemma NoDup_concat_In {A} (ls : list (list A)) (g : list A) :
  NoDup (concat ls) -> In g ls -> NoDup g.
Proof.
  induction ls as [| g0 ls IH]; intros Hnd Hin; [destruct Hin |].
  simpl in Hnd. apply NoDup_app_inv in Hnd. destruct Hnd as (H0 & Hls & _).
  destruct Hin as [-> | Hin]; [exact H0 | now apply IH].
Qed.

(** In a concatenation without repetition an element lies in one list. *)
Lemma NoDup_concat_same {A} (ls : list (list A)) (g g' : list A) (x : A) :
  NoDup (concat ls) -> In g ls -> In g' ls -> In x g -> In x g' -> g = g'.
Proof.
  induction ls as [| g0 ls IH]; intros Hnd Hg Hg' Hx Hx'; [destruct Hg |].
  simpl in Hnd. apply NoDup_app_inv in Hnd. destruct Hnd as (_ & Hls & Hdis).
  destruct Hg as [-> | Hg], Hg' as [-> | Hg'].
  - reflexivity.
  - exfalso. apply (Hdis x Hx). apply in_concat. eauto.
  - exfalso. apply (Hdis x Hx'). apply in_concat. eauto.
  - now apply IH.
Qed.

Lemma NoDup_flat_map_sub {A B} (f g : A -> list B) (xs : list A) :
  (forall x, In x xs -> incl (g x) (f x) /\ (NoDup (f x) -> NoDup (g x))) ->
  NoDup (flat_map f xs) -> NoDup (flat_map g xs).
Proof.
  induction xs as [| x xs IH]; intros Hsub Hnd; [constructor |].
  simpl in *. apply NoDup_app_inv in Hnd. destruct Hnd as (Hx & Hxs & Hdis).
  destruct (Hsub x (or_introl eq_refl)) as [Hincl Hnd].
  assert (Hrest : forall y, In y xs ->
                            incl (g y) (f y) /\ (NoDup (f y) -> NoDup (g y)))
    by (intros y Hy; apply Hsub; now right).
  apply NoDup_app; [now apply Hnd | now apply IH |].
  intros a Ha Hin. apply (Hdis a); [now apply Hincl |].
  apply in_flat_map in Hin. destruct Hin as (y & Hy & Hin).
  apply in_flat_map. exists y. split; [exact Hy |].
  now apply (proj1 (Hrest y Hy)).
Qed.

(** ** What the walk visits *)

Lemma visited_in_all (skip_patterns : list string) (t : tree) :
  forall top,
    incl (visited_files skip_patterns top t) (all_files top t)
    /\ (NoDup (all_files top t) -> NoDup (visited_files skip_patterns top t)).
Proof.
  induction t as [files subdirs IH] using tree_ind. intros top.
  cbn [visited_files all_files].
  destruct (should_skip_directory top skip_patterns).
  - split; [intros p [] | constructor].
  - rewrite Forall_forall in IH. split.
    + apply incl_app_app; [apply incl_refl |].
      intros p Hp. apply in_flat_map in Hp. destruct Hp as (e & He & Hp).
      apply in_flat_map. exists e. split; [exact He |].
      now apply (proj1 (IH e He (path_join top (fst e)))).
    + intros Hnd. apply NoDup_app_inv in Hnd.
      destruct Hnd as (Hfiles & Hsub & Hdis).
      apply NoDup_app; [exact Hfiles | |].
      * revert Hsub. apply NoDup_flat_map_sub. intros e He. apply (IH e He).
      * intros a Ha Hin. apply (Hdis a Ha).
        apply in_flat_map in Hin. destruct Hin as (e & He & Hin).
        apply in_flat_map. exists e. split; [exact He |].
        now apply (proj1 (IH e He (path_join top (fst e)))).
Qed.

Lemma subdir_files_in_all (top : string) (t : tree) (p : string) (d : tree) :
  subdir_at top t p d -> incl (all_files p d) (all_files top t).
Proof.
  induction 1 as [| top files subdirs name sub p d Hin _ IH];
    [apply incl_refl |].
  intros q Hq. cbn [all_files]. apply in_or_app. right.
  apply in_flat_map. exists (name, sub). split; [exact Hin | now apply IH].
Qed.

Lemma should_skip_directory_true (dir_path : string)
  (skip_patterns : list string) :
  In (basename dir_path) skip_patterns ->
  should_skip_directory dir_path skip_patterns = true.
Proof.
  intros Hin. unfold should_skip_directory.
  destruct (in_dec string_dec (basename dir_path) skip_patterns);
    [reflexivity | contradiction].
Qed.

(** No file below a skipped directory is among the visited files. *)
Lemma skipped_not_visited (skip_patterns : list string) (top : string)
  (t : tree) (p : string) (d : tree) (q : Path) :
  subdir_at top t p d ->
  In (basename p) skip_patterns ->
  In q (all_files p d) ->
  NoDup (all_files top t) ->
  ~ In q (visited_files skip_patterns top t).
Proof.
  intros Hsub Hskip Hq.
  induction Hsub as [top [files subdirs] | top files subdirs name sub p d Hin Hsub IH];
    intros Hnd; cbn [visited_files].
  - rewrite should_skip_directory_true by exact Hskip. intros [].
  - destruct (should_skip_directory top skip_patterns); [intros [] |].
    specialize (IH Hskip Hq).
    pose proof (subdir_files_in_all _ _ _ _ Hsub q Hq) as Hq'.
    cbn [all_files] in Hnd. apply NoDup_app_inv in Hnd.
    destruct Hnd as (_ & Hnd & Hdis).
    intros Hv. apply in_app_or in Hv. destruct Hv as [Hv | Hv].
    + apply (Hdis q Hv). apply in_flat_map. now exists (name, sub).
    + clear Hdis. induction subdirs as [| e rest IHrest]; [destruct Hin |].
      cbn [flat_map] in Hnd, Hv. apply NoDup_app_inv in Hnd.
      destruct Hnd as (He & Hrest & Hdis).
      assert (Hincl : forall e', In q (visited_files skip_patterns
                                         (path_join top (fst e')) (snd e')) ->
                                 In q (all_files (path_join top (fst e'))
                                                 (snd e')))
        by (intros e'; apply (proj1 (visited_in_all _ _ _))).
      apply in_app_or in Hv. destruct Hin as [-> | Hin], Hv as [Hv | Hv].
      * now apply IH.
      * apply (Hdis q Hq'). apply in_flat_map in Hv.
        destruct Hv as (e' & He' & Hv). apply in_flat_map. exists e'.
        split; [exact He' | now apply Hincl].
      * apply (Hdis q (Hincl e Hv)). apply in_flat_map. now exists (name, sub).
      * now apply IHrest.
Qed.

(** ** Monotonic filtering *)

Section Funnel.
Variables (w : world) (skip_patterns : list string) (root_dir : string)
          (t : tree).

Lemma size_candidates_incl (p : Path) :
  In p (size_candidates w skip_patterns root_dir t) ->
  In p (visited_files skip_patterns root_dir t).
Proof.
  unfold size_candidates. intros Hp.
  apply flatten_several_incl in Hp. now apply group_by_incl in Hp.
Qed.

Lemma quick_candidates_incl (p : Path) :
  In p (quick_candidates w skip_patterns root_dir t) ->
  In p (size_candidates w skip_patterns root_dir t).
Proof.
  unfold quick_candidates. intros Hp.
  apply flatten_several_incl in Hp. now apply group_by_incl in Hp.
Qed.

Lemma funnel_members (p : Path) :
  In p (concat (values (funnel w skip_patterns root_dir t))) ->
  In p (quick_candidates w skip_patterns root_dir t).
Proof.
  unfold funnel. rewrite values_filter_several. intros Hp.
  apply flatten_several_incl in Hp. now apply group_by_incl in Hp.
Qed.

Lemma funnel_NoDup :
  NoDup (visited_files skip_patterns root_dir t) ->
  NoDup (concat (values (funnel w skip_patterns root_dir t))).
Proof.
  intros Hnd. unfold funnel, quick_candidates, size_candidates.
  rewrite values_filter_several.
  repeat (apply flatten_several_NoDup, group_by_NoDup). exact Hnd.
Qed.

Lemma funnel_several (h : string) (g : list Path) :
  In (h, g) (funnel w skip_patterns root_dir t) -> (2 <= length g)%nat.
Proof.
  unfold funnel. intros Hin. apply filter_In in Hin.
  destruct Hin as [_ Hs]. unfold several in Hs. simpl in Hs.
  apply Nat.ltb_lt in Hs. lia.
Qed.
End Funnel.

(** C6. In a tree where no path names two files, a directory whose
    basename is in the skip-set is not entered: its walk leaves the index
    untouched, and no file in it or below it is visited, put in a size
    bucket, hashed in either hashing phase, or reported in a duplicate
    group. *)
Theorem skipped_directory_never_scanned (rt : runtime) (w : world) (t : tree)
  (root_dir : string) (skip_patterns : list string) (workers : option Z)
  (p : string) (d : tree) (q : Path) :
  NoDup (all_files root_dir t) ->
  subdir_at root_dir t p d ->
  In (basename p) skip_patterns ->
  In q (all_files p d) ->
  (forall st, os_walk (index_directory (at_index w) skip_patterns) p d st = st)
  /\ ~ In q (visited_files skip_patterns root_dir t)
  /\ ~ In q (concat (values (fst (fst (index_by_size (at_index w) skip_patterns
                                                     root_dir t)))))
  /\ ~ In q (size_candidates w skip_patterns root_dir t)
  /\ ~ In q (quick_candidates w skip_patterns root_dir t)
  /\ (forall groups,
         find_duplicates rt w t root_dir skip_patterns workers = Ok groups ->
         ~ In q (concat (values groups))).
Proof.
  intros Hnd Hsub Hskip Hq.
  pose proof (skipped_not_visited _ _ _ _ _ _ Hsub Hskip Hq Hnd) as Hv.
  split; [| split; [exact Hv | split; [| split; [| split]]]].
  - intros st. rewrite os_walk_index. destruct d as [files subdirs].
    cbn [visited_files]. now rewrite should_skip_directory_true.
  - destruct (index_by_size_spec (at_index w) skip_patterns root_dir t)
      as [Hsm _]. cbn zeta in Hsm. rewrite Hsm.
    intros Hin. now apply group_by_incl in Hin.
  - intros Hin. now apply size_candidates_incl in Hin.
  - intros Hin. now apply quick_candidates_incl, size_candidates_incl in Hin.
  - intros groups Hfd Hin. apply find_duplicates_Ok in Hfd. subst groups.
    now apply funnel_members, quick_candidates_incl, size_candidates_incl
      in Hin.
Qed.

Lemma skipped_directory_never_scanned_witness :
  ~ In "/r/themes/x"%string
       (concat (values (fst (fst (index_by_size sample_disk ["themes"%string]
                                                "/r" sample_tree)))))
  /\ forall groups,
      find_duplicates four_cores (steady sample_disk) sample_tree "/r"
                      ["themes"%string] None = Ok groups ->
      ~ In "/r/themes/x"%string (concat (values groups)).
Proof.
  destruct (skipped_directory_never_scanned
              four_cores (steady sample_disk) sample_tree "/r"%string
              ["themes"%string] None "/r/themes"%string
              (Dir ["x"; "y"]%string []) "/r/themes/x"%string)
    as (_ & _ & Hidx & _ & _ & Hgroups).
  - vm_compute. repeat constructor; simpl; intuition discriminate.
  - eapply subdir_below; [left; reflexivity | apply subdir_here].
  - vm_compute. now left.
  - vm_compute. now left.
  - split; [exact Hidx | exact Hgroups].
Defined.

(** *** Keep and delete targets *)

Lemma group_decisions_targets (fs : filesystem) (g : list Path)
  (dec : decision) :
  In dec (group_decisions fs g) ->
  exists k newer,
    sorted (get_file_age fs) g = k :: newer
    /\ keep_target dec = k /\ In (delete_target dec) newer.
Proof.
  unfold group_decisions.
  destruct (sorted (get_file_age fs) g) as [| k newer]; [intros [] |].
  intros Hin. apply in_map_iff in Hin. destruct Hin as (p & <- & Hp).
  exists k, newer. auto.
Qed.

Lemma sorted_NoDup {A} (key : A -> age) (l : list A) :
  NoDup l -> NoDup (sorted key l).
Proof.
  apply Permutation_NoDup. symmetry. apply sorted_perm.
Qed.

(** C7. When no path occurs twice in the tree, no path occurs twice in the
    groups the scan reports; in the plan made of them no delete target is
    a keep target, and each member of a group is the keep file of its
    group and no delete target, or a delete target and not the keep
    file. *)
Theorem keep_and_delete_disjoint (rt : runtime) (w : world) (t : tree)
  (root_dir : string) (skip_patterns : list string) (workers : option Z)
  (fs : filesystem) (d : dict string (list Path))
  (plan : list decision) (stats : statistics) :
  NoDup (all_files root_dir t) ->
  find_duplicates rt w t root_dir skip_patterns workers = Ok d ->
  analyze_duplicates fs d = Ok (plan, stats) ->
  NoDup (concat (values d))
  /\ (forall dec dec', In dec plan -> In dec' plan ->
                       delete_target dec <> keep_target dec')
  /\ (forall h g p,
         In (h, g) d -> In p g ->
         (keep_file fs g = Some p
          /\ forall dec, In dec plan -> delete_target dec <> p)
         \/ (keep_file fs g <> Some p
             /\ exists dec, In dec plan /\ delete_target dec = p)).
Proof.
  intros Htree Hfd Hplan.
  assert (Hnd : NoDup (concat (values d))).
  { apply find_duplicates_Ok in Hfd. subst d. apply funnel_NoDup.
    now apply visited_in_all. }
  pose proof Hplan as Hloop. unfold analyze_duplicates in Hloop.
  apply analyze_loop_Ok in Hloop. destruct Hloop as (_ & Heq & _).
  simpl in Heq.
  assert (Hdec : forall dec, In dec plan ->
                             exists h g k newer,
                               In (h, g) d
                               /\ sorted (get_file_age fs) g = k :: newer
                               /\ keep_target dec = k
                               /\ In (delete_target dec) newer).
  { intros dec Hin. rewrite Heq in Hin. apply in_flat_map in Hin.
    destruct Hin as ([h g] & Hg & Hin). simpl in Hin.
    apply group_decisions_targets in Hin.
    destruct Hin as (k & newer & Hs & Hk & Hdel). exists h, g, k, newer. auto. }
  assert (Hone : forall h g h' g' x,
             In (h, g) d -> In (h', g') d -> In x g -> In x g' -> g = g').
  { intros h g h' g' x Hg Hg'. apply (NoDup_concat_same (values d)).
    - exact Hnd.
    - apply in_map_iff. now exists (h, g).
    - apply in_map_iff. now exists (h', g'). }
  assert (Hgroup : forall h g, In (h, g) d -> NoDup (sorted (get_file_age fs) g)).
  { intros h g Hg. apply sorted_NoDup. apply (NoDup_concat_In (values d));
      [exact Hnd | apply in_map_iff; now exists (h, g)]. }
  assert (Hmem : forall g k newer x,
             sorted (get_file_age fs) g = k :: newer ->
             In x (k :: newer) -> In x g).
  { intros g k newer x Hs Hx. apply (sorted_In (get_file_age fs)).
    now rewrite Hs. }
  split; [exact Hnd | split].
  - intros dec dec' Hin Hin' Hsame.
    destruct (Hdec dec Hin) as (h & g & k & newer & Hg & Hs & _ & Hdel).
    destruct (Hdec dec' Hin') as (h' & g' & k' & newer' & Hg' & Hs' & Hk' & _).
    assert (g = g').
    { apply (Hone h g h' g' (delete_target dec) Hg Hg').
      - apply (Hmem g k newer); [exact Hs | now right].
      - rewrite Hsame, Hk'. apply (Hmem g' k' newer'); [exact Hs' | now left]. }
    subst g'. rewrite Hs in Hs'. inversion Hs'; subst k' newer'.
    pose proof (Hgroup h g Hg) as Hnd'. rewrite Hs in Hnd'.
    apply NoDup_cons_iff in Hnd'. destruct Hnd' as [Hnotin _]. apply Hnotin. congruence.
  - intros h g p Hg Hp. pose proof (Hgroup h g Hg) as Hnd'.
    unfold keep_file.
    destruct (sorted (get_file_age fs) g) as [| k newer] eqn:Hs.
    + apply (sorted_In (get_file_age fs)) in Hp. rewrite Hs in Hp.
      destruct Hp.
    + apply NoDup_cons_iff in Hnd'. destruct Hnd' as [Hnotin _].
      apply (sorted_In (get_file_age fs)) in Hp. rewrite Hs in Hp.
      destruct Hp as [-> | Hp].
      * left. split; [reflexivity |]. intros dec Hin Hsame.
        destruct (Hdec dec Hin) as (h' & g' & k' & newer' & Hg' & Hs' & _ & Hdel).
        assert (g' = g).
        { apply (Hone h' g' h g p Hg' Hg).
          - rewrite <- Hsame. apply (Hmem g' k' newer'); [exact Hs' | now right].
          - apply (Hmem g p newer); [exact Hs | now left]. }
        subst g'. rewrite Hs in Hs'. inversion Hs'; subst.
        apply Hnotin. congruence.
      * right. split.
        -- cbn [hd_error]. intros Heq'. inversion Heq'; subst.
           now apply Hnotin.
        -- exists (p, k, size_on_disk fs k). split; [| reflexivity].
           rewrite Heq. apply in_flat_map. exists (h, g).
           split; [exact Hg |]. simpl. unfold group_decisions. rewrite Hs.
           apply in_map_iff. now exists p.
Qed.

Lemma keep_and_delete_disjoint_witness :
  NoDup (concat (values sample_groups))
  /\ forall dec dec',
      In dec [("/r/sub/d", "/r/b", 5); ("/r/a", "/r/b", 5)]%string ->
      In dec' [("/r/sub/d", "/r/b", 5); ("/r/a", "/r/b", 5)]%string ->
      delete_target dec <> keep_target dec'.
Proof.
  destruct (keep_and_delete_disjoint
              four_cores (steady sample_disk) sample_tree "/r"%string
              ["themes"%string] None sample_disk sample_groups
              [("/r/sub/d", "/r/b", 5); ("/r/a", "/r/b", 5)]%string
              {| groups := 1; total_files := 3; files_to_delete := 2;
                 files_to_keep := 1; space_total := 5; space_wasted := 10 |})
    as (Hnd & Hdisj & _).
  - vm_compute. repeat constructor; simpl; intuition discriminate.
  - vm_compute. reflexivity.
  - vm_compute. reflexivity.
  - split; [exact Hnd | exact Hdisj].
Defined.

(** ** Order of the members of a group *)

Lemma truthy_Some (o : option string) (h : string) :
  truthy o = Some h -> o = Some h.
Proof. destruct o as [[| c s] |]; simpl; intros H; congruence. Qed.

Lemma has_key_true {K A} `{EqDec K} (key : A -> option K) (k : K) (x : A) :
  has_key key k x = true <-> key x = Some k.
Proof.
  unfold has_key. destruct (key x) as [k' |]; [| split; discriminate].
  destruct (eq_dec k' k); split; congruence.
Qed.

Lemma full_key_content (fs : filesystem) (p : Path) (h : string) :
  full_key fs p = Some h ->
  exists c, fs_open fs p = Some c /\ h = MD5.hexdigest (MD5.md5 c).
Proof.
  unfold full_key. intros H. apply truthy_Some in H.
  rewrite full_hash_is_whole_hash in H. unfold whole_content_hash in H.
  destruct (fs_open fs p) as [c |]; [| discriminate].
  exists c. split; [reflexivity | congruence].
Qed.

Lemma filter_nonempty_several {A} (P : A -> bool) (cond : bool)
  (l g : list A) :
  g = (if cond then filter P l else []) -> g <> [] -> g = filter P l.
Proof. destruct cond; [auto | congruence]. Qed.

(** On an unchanged tree of regular files, a reported group whose digest
    stands for one content is the sequence of the visited files of that
    digest, in the order of the visit. *)
Lemma group_in_discovery_order (fs : filesystem) (skip_patterns : list string)
  (root_dir : string) (t : tree) (h : string) (g : list Path) :
  regular_files fs (visited_files skip_patterns root_dir t) ->
  byte_identical fs h (visited_files skip_patterns root_dir t) ->
  In (h, g) (funnel (steady fs) skip_patterns root_dir t) ->
  g = filter (has_key (full_key fs) h) (visited_files skip_patterns root_dir t).
Proof.
  intros Hreg Hfaith Hin.
  pose proof (funnel_several _ _ _ _ _ _ Hin) as Hlen.
  unfold funnel in Hin. apply filter_In in Hin. destruct Hin as [Hin _].
  apply group_by_In in Hin. cbn [steady at_full] in Hin.
  set (P := has_key (full_key fs) h) in *.
  set (visited := visited_files skip_patterns root_dir t) in *.
  assert (Hne : g <> []) by (destruct g; [simpl in Hlen; lia | discriminate]).
  (* one member fixes the content of all files of this digest *)
  assert (Hp0 : exists p0, In p0 g)
    by (destruct g as [| p0 g']; [congruence | exists p0; now left]).
  destruct Hp0 as [p0 Hp0]. rewrite Hin in Hp0. apply filter_In in Hp0.
  destruct Hp0 as [Hp0 HP0].
  apply quick_candidates_incl, size_candidates_incl in Hp0.
  fold visited in Hp0.
  apply has_key_true, full_key_content in HP0.
  destruct HP0 as (c0 & Hopen0 & Hh).
  assert (Hcontent : forall x, In x visited -> P x = true ->
                               fs_open fs x = Some c0).
  { intros x Hx HPx. apply has_key_true, full_key_content in HPx.
    destruct HPx as (c & Hopen & Hh'). rewrite Hopen. f_equal.
    apply (Hfaith x p0 c c0 Hx Hp0 Hopen Hopen0); congruence. }
  assert (Hsize : forall x, In x visited -> P x = true ->
                            size_key fs x = Some (Z.of_nat (length c0))).
  { intros x Hx HPx. destruct (Hreg x c0 Hx (Hcontent x Hx HPx))
      as (s & Hs & Hlen'). unfold size_key. rewrite Hs. simpl. congruence. }
  assert (Hquick : forall x, In x visited -> P x = true ->
                             quick_key (steady fs) x
                             = Some (Z.of_nat (length c0),
                                     MD5.hexdigest
                                       (MD5.md5
                                          (fst (read QUICK_HASH_SIZE
                                                     {| unread := c0 |}))))).
  { intros x Hx HPx. destruct (Hreg x c0 Hx (Hcontent x Hx HPx))
      as (s & Hs & Hlen'). unfold quick_key, calculate_quick_hash.
    cbn [steady at_quick at_regroup]. rewrite (Hcontent x Hx HPx), Hs.
    rewrite hexdigest_truthy. congruence. }
  (* the two regroupings keep these files together and in order *)
  unfold quick_candidates in Hin.
  erewrite filter_flatten_group_by in Hin
    by (intros x Hx; apply Hquick; now apply size_candidates_incl in Hx).
  apply filter_nonempty_several in Hin; [| exact Hne].
  unfold size_candidates in Hin. cbn [steady at_index] in Hin.
  fold visited in Hin.
  erewrite filter_flatten_group_by in Hin
    by (intros x Hx; now apply Hsize).
  now apply filter_nonempty_several in Hin.
Qed.

Lemma disk_regular (entries : list (Path * (Z * list byte))) (l : list Path) :
  regular_files (disk entries) l.
Proof.
  intros p c _ Hopen. simpl in *.
  destruct (lookup p entries) as [[m c'] |]; [| discriminate].
  simpl in Hopen. inversion Hopen; subst. eauto.
Qed.

Lemma sample_byte_identical :
  byte_identical sample_disk "5d41402abc4b2a76b9719d911017c592"
                 (visited_files ["themes"%string] "/r" sample_tree).
Proof.
  intros p q c c' Hp Hq Hc Hc' Hmd5 Hmd5'. vm_compute in Hp, Hq.
  repeat (destruct Hp as [<- | Hp]); try contradiction;
    repeat (destruct Hq as [<- | Hq]); try contradiction;
    vm_compute in Hc, Hc'; inversion Hc; inversion Hc'; subst;
    try reflexivity; vm_compute in Hmd5, Hmd5'; discriminate.
Qed.

(** ** Paths *)

Lemma substring_all (s : string) : substring 0 (String.length s) s = s.
Proof. induction s as [| c s IH]; simpl; [reflexivity | now rewrite IH]. Qed.

Lemma rfind_sep_lower (p : string) : -1 <= rfind_sep p.
Proof.
  induction p as [| c p IH]; simpl; [lia |].
  destruct (0 <=? rfind_sep p) eqn:Hi; [apply Z.leb_le in Hi; lia |].
  destruct (Ascii.eqb c sep); lia.
Qed.

Lemma basename_no_sep (name : string) :
  rfind_sep name = -1 -> basename name = name.
Proof.
  intros Hname. unfold basename. rewrite Hname. simpl.
  rewrite Nat.sub_0_r. apply substring_all.
Qed.

Lemma basename_after_sep (name : string) :
  rfind_sep name = -1 -> basename (String sep name) = name.
Proof.
  intros Hname. unfold basename. cbn [rfind_sep]. rewrite Hname.
  change (0 <=? -1) with false. cbv iota.
  rewrite Ascii.eqb_refl. change (Z.to_nat (0 + 1)) with 1%nat.
  cbn [String.length substring Nat.sub]. rewrite Nat.sub_0_r.
  apply substring_all.
Qed.

Lemma basename_cons (c : ascii) (p : string) :
  0 <= rfind_sep p -> basename (String c p) = basename p.
Proof.
  intros Hp. unfold basename. cbn [rfind_sep String.length].
  apply Z.leb_le in Hp. rewrite Hp. apply Z.leb_le in Hp.
  replace (Z.to_nat (rfind_sep p + 1 + 1))
    with (S (Z.to_nat (rfind_sep p + 1))) by lia.
  reflexivity.
Qed.

Lemma rfind_sep_app_sep (a name : string) :
  0 <= rfind_sep (a ++ String sep name).
Proof.
  induction a as [| c a IH]; cbn [append rfind_sep].
  - destruct (0 <=? rfind_sep name) eqn:Hi; [apply Z.leb_le in Hi; lia |].
    rewrite Ascii.eqb_refl. lia.
  - apply Z.leb_le in IH. rewrite IH. apply Z.leb_le in IH. lia.
Qed.

Lemma basename_app_sep (a name : string) :
  rfind_sep name = -1 -> basename (a ++ String sep name) = name.
Proof.
  intros Hname. induction a as [| c a IH]; cbn [append].
  - now apply basename_after_sep.
  - rewrite basename_cons; [exact IH | apply rfind_sep_app_sep].
Qed.

Lemma endswith_sep_app (a : string) :
  endswith_sep a = true -> exists a', a = (a' ++ String sep EmptyString)%string.
Proof.
  induction a as [| c a IH]; [discriminate |].
  destruct a as [| c' a].
  - simpl. intros Hc. apply Ascii.eqb_eq in Hc. subst c. now exists EmptyString.
  - intros Hend. destruct (IH Hend) as [a' Ha']. exists (String c a').
    simpl. now rewrite <- Ha'.
Qed.

Lemma append_assoc (a b c : string) :
  ((a ++ b) ++ c)%string = (a ++ (b ++ c))%string.
Proof. induction a as [| x a IH]; simpl; [reflexivity | now rewrite IH]. Qed.

(** The basename of a directory the walk descends into is the name under
    which its parent lists it. *)
Lemma basename_path_join (top name : string) :
  rfind_sep name = -1 -> basename (path_join top name) = name.
Proof.
  intros Hname. unfold path_join.
  assert (Hstart : startswith_sep name = false).
  { destruct name as [| c name]; [reflexivity |]. simpl in *.
    destruct (0 <=? rfind_sep name); [pose proof (rfind_sep_lower name); lia |].
    destruct (Ascii.eqb c sep); [discriminate | reflexivity]. }
  rewrite Hstart.
  destruct top as [| c top]; [now apply basename_no_sep |].
  cbn [String.length Nat.eqb orb].
  destruct (endswith_sep (String c top)) eqn:Hend.
  - apply endswith_sep_app in Hend. destruct Hend as [a' ->].
    rewrite append_assoc. cbn [append]. now apply basename_app_sep.
  - now apply basename_app_sep.
Qed.

Example basename_of_subdirectory :
  basename (path_join "/r" "themes") = "themes"%string
  /\ basename "/r/themes/"%string = EmptyString.
Proof. split; reflexivity. Qed.

(** *** Distinct files have distinct paths *)

Lemma append_inv_head (a b c : string) :
  (a ++ b)%string = (a ++ c)%string -> b = c.
Proof.
  induction a as [| x a IH]; simpl; intros H; [exact H |].
  inversion H. now apply IH.
Qed.

Lemma rfind_sep_tail (c : ascii) (p : string) :
  rfind_sep (String c p) = -1 -> c <> sep /\ rfind_sep p = -1.
Proof.
  simpl. pose proof (rfind_sep_lower p) as Hlow.
  destruct (0 <=? rfind_sep p) eqn:Hi.
  - apply Z.leb_le in Hi. lia.
  - apply Z.leb_gt in Hi. destruct (Ascii.eqb c sep) eqn:Hc; [discriminate |].
    intros _. split; [| lia]. intros ->. now rewrite Ascii.eqb_refl in Hc.
Qed.

Lemma endswith_sep_no_sep (name : string) :
  rfind_sep name = -1 -> endswith_sep name = false.
Proof.
  induction name as [| c name IH]; [reflexivity |].
  intros H. apply rfind_sep_tail in H. destruct H as [Hc Hname].
  destruct name as [| c' name]; [| now apply IH].
  simpl. now apply Ascii.eqb_neq.
Qed.

Lemma endswith_sep_append (a name : string) :
  name <> EmptyString -> endswith_sep (a ++ name) = endswith_sep name.
Proof.
  intros Hne. induction a as [| c a IH]; [reflexivity |].
  cbn [append]. destruct (a ++ name)%string as [| c' rest] eqn:Happ.
  - destruct a; [simpl in Happ; congruence | discriminate].
  - cbn [endswith_sep]. exact IH.
Qed.

Lemma startswith_sep_no_sep (name : string) :
  rfind_sep name = -1 -> startswith_sep name = false.
Proof.
  destruct name as [| c name]; [reflexivity |].
  intros H. apply rfind_sep_tail in H. simpl. now apply Ascii.eqb_neq.
Qed.

Lemma path_join_prefix (top name : string) :
  good_name name -> path_join top name = (dir_prefix top ++ name)%string.
Proof.
  intros [_ Hname]. unfold path_join, dir_prefix.
  rewrite startswith_sep_no_sep by exact Hname.
  destruct ((String.length top =? 0)%nat || endswith_sep top);
    [reflexivity |].
  now rewrite append_assoc.
Qed.

Lemma dir_prefix_join (top name : string) :
  good_name name ->
  dir_prefix (path_join top name)
  = (dir_prefix top ++ name ++ String sep EmptyString)%string.
Proof.
  intros Hgood. rewrite path_join_prefix by exact Hgood.
  destruct Hgood as [Hne Hname]. unfold dir_prefix at 1.
  rewrite endswith_sep_append, endswith_sep_no_sep by assumption.
  destruct (dir_prefix top ++ name)%string as [| c rest] eqn:Happ.
  - destruct (dir_prefix top); [simpl in Happ; congruence | discriminate].
  - cbn [String.length Nat.eqb orb]. rewrite <- Happ. apply append_assoc.
Qed.

Lemma wf_tree_subdirs (subdirs : list (string * tree)) (entry : string * tree) :
  fold_right (fun entry rest => wf_tree (snd entry) /\ rest) True subdirs ->
  In entry subdirs -> wf_tree (snd entry).
Proof.
  induction subdirs as [| e rest IH]; intros Hwf Hin; [destruct Hin |].
  destruct Hwf as [He Hrest]. destruct Hin as [-> | Hin]; [exact He | auto].
Qed.

(** The visited paths are the relative paths behind the prefix of the
    root. *)
Lemma all_files_rel (t : tree) :
  forall top, wf_tree t ->
              all_files top t
              = map (append (dir_prefix top)) (rel_files t).
Proof.
  induction t as [files subdirs IH] using tree_ind. intros top Hwf.
  cbn [wf_tree] in Hwf. destruct Hwf as (Hfiles & _ & Hnames & _ & Hsubs).
  cbn [all_files rel_files]. rewrite map_app. f_equal.
  - apply map_ext_in. intros f Hf. apply path_join_prefix.
    rewrite Forall_forall in Hfiles. now apply Hfiles.
  - rewrite flat_map_concat_map, flat_map_concat_map, concat_map, map_map.
    f_equal. apply map_ext_in. intros entry Hentry.
    rewrite Forall_forall in IH, Hnames.
    rewrite (IH entry Hentry) by now apply (wf_tree_subdirs subdirs).
    rewrite dir_prefix_join by (apply Hnames; now apply in_map).
    rewrite map_map. apply map_ext. intros r.
    rewrite !append_assoc. reflexivity.
Qed.

Lemma NoDup_map_injective {A B} (f : A -> B) (l : list A) :
  (forall x y, f x = f y -> x = y) -> NoDup l -> NoDup (map f l).
Proof.
  intros Hinj. induction 1 as [| x l Hnotin _ IH]; simpl; constructor;
    [| exact IH].
  intros Hin. apply in_map_iff in Hin. destruct Hin as (y & Heq & Hy).
  apply Hinj in Heq. now subst.
Qed.

Lemma no_sep_prefix_inj (n n' r r' : string) :
  rfind_sep n = -1 -> rfind_sep n' = -1 ->
  (n ++ String sep r)%string = (n' ++ String sep r')%string -> n = n'.
Proof.
  revert n'. induction n as [| c n IH]; intros [| c' n'] Hn Hn' Heq.
  - reflexivity.
  - simpl in Heq. inversion Heq; subst c'.
    apply rfind_sep_tail in Hn'. now destruct Hn'.
  - simpl in Heq. inversion Heq; subst c.
    apply rfind_sep_tail in Hn. now destruct Hn.
  - simpl in Heq. inversion Heq; subst c'.
    apply rfind_sep_tail in Hn, Hn'. f_equal. now apply (IH n').
Qed.

Lemma rel_files_NoDup (t : tree) : wf_tree t -> NoDup (rel_files t).
Proof.
  induction t as [files subdirs IH] using tree_ind. intros Hwf.
  cbn [wf_tree] in Hwf.
  destruct Hwf as (Hfiles & Hnd & Hnames & Hndnames & Hsubs).
  cbn [rel_files]. apply NoDup_app; [exact Hnd | |].
  - clear Hfiles Hnd. rewrite Forall_forall in IH.
    induction subdirs as [| [name sub] rest IHrest]; [constructor |].
    cbn [flat_map map fst snd] in *.
    destruct Hsubs as [Hsub Hsubs].
    inversion Hnames as [| ? ? Hname Hnames']; subst.
    inversion Hndnames as [| ? ? Hnotin Hndnames']; subst.
    apply NoDup_app.
    + apply NoDup_map_injective.
      * intros r r' Heq. apply append_inv_head in Heq. now inversion Heq.
      * apply (IH (name, sub)); [now left | exact Hsub].
    + apply IHrest; try assumption. intros e He. apply IH. now right.
    + intros p Hp Hin. apply in_map_iff in Hp. destruct Hp as (r & <- & _).
      apply in_flat_map in Hin. destruct Hin as ([name' sub'] & He & Hin).
      apply in_map_iff in Hin. destruct Hin as (r' & Heq & _). simpl in Heq.
      apply Hnotin. apply in_map_iff. exists (name', sub').
      split; [| exact He]. simpl.
      apply (no_sep_prefix_inj name' name r' r); [| apply Hname | exact Heq].
      rewrite Forall_forall in Hnames'. apply Hnames'.
      apply in_map_iff. now exists (name', sub').
  - intros f Hf Hin. apply in_flat_map in Hin.
    destruct Hin as ([name sub] & _ & Hin). apply in_map_iff in Hin.
    destruct Hin as (r & <- & _). rewrite Forall_forall in Hfiles.
    destruct (Hfiles _ Hf) as [_ Hsepfree]. simpl in Hsepfree.
    pose proof (rfind_sep_app_sep name r). lia.
Qed.

(** In a well-formed tree no path names two files. *)
Lemma wf_tree_all_files_NoDup (top : string) (t : tree) :
  wf_tree t -> NoDup (all_files top t).
Proof.
  intros Hwf. rewrite all_files_rel by exact Hwf.
  apply NoDup_map_injective; [| now apply rel_files_NoDup].
  intros r r'. apply append_inv_head.
Qed.

Example sample_tree_wf : wf_tree sample_tree.
Proof.
  cbn. repeat split; repeat constructor; simpl;
    try discriminate; intuition discriminate.
Qed.

(** * Further properties of the funnel *)

Lemma NoDup_map_fst_filter {K V} (f : K * V -> bool) (d : list (K * V)) :
  NoDup (map fst d) -> NoDup (map fst (filter f d)).
Proof.
  induction d as [| e d IH]; intros Hd; [constructor |].
  simpl in Hd. apply NoDup_cons_iff in Hd. destruct Hd as [Hnotin Hd].
  simpl. destruct (f e); [| now apply IH].
  simpl. constructor; [| now apply IH].
  intros Hin. apply Hnotin. apply in_map_iff in Hin.
  destruct Hin as (e' & He' & Hin). apply filter_In in Hin.
  apply in_map_iff. exists e'. tauto.
Qed.

Lemma dd_get_entry {K V} `{EqDec K} (k : K) (d : dict K (list V)) :
  dd_get k d <> [] -> In (k, dd_get k d) d.
Proof.
  induction d as [| [k' vs] d IH]; simpl; intros Hne; [congruence |].
  destruct (eq_dec k' k) as [-> | ?]; [now left | right; now apply IH].
Qed.




Lemma in_group_by_has_key {K A} `{EqDec K} (key : A -> option K)
  (l : list A) (x : A) :
  In x (concat (values (group_by key l))) ->
  In x l /\ exists k, key x = Some k.
Proof.
  intros Hx. apply (Permutation_in _ (group_by_perm key l)) in Hx.
  apply filter_In in Hx. destruct Hx as [Hx Hsome]. split; [exact Hx |].
  unfold has_some in Hsome. destruct (key x) as [k |]; [eauto | discriminate].
Qed.

Lemma funnel_NoDup_keys (w : world) (skip_patterns : list string)
  (root_dir : string) (t : tree) :
  NoDup (map fst (funnel w skip_patterns root_dir t)).
Proof.
  unfold funnel. apply NoDup_map_fst_filter, group_by_NoDup_keys.
Qed.

(** X1. Every group the scan reports has at least two members, and no
    digest heads two groups. *)
Theorem reported_groups_plural (rt : runtime) (w : world) (t : tree)
  (root_dir : string) (skip_patterns : list string) (workers : option Z)
  (d : dict string (list Path)) :
  find_duplicates rt w t root_dir skip_patterns workers = Ok d ->
  NoDup (map fst d)
  /\ forall h g, In (h, g) d -> (2 <= length g)%nat.
Proof.
  intros Hfd. apply find_duplicates_Ok in Hfd. subst d.
  split; [apply funnel_NoDup_keys |].
  intros h g Hin. now apply funnel_several in Hin.
Qed.

Lemma reported_groups_plural_witness :
  NoDup (map fst sample_groups)
  /\ forall h g, In (h, g) sample_groups -> (2 <= length g)%nat.
Proof.
  apply (reported_groups_plural four_cores (steady sample_disk) sample_tree
                                "/r"%string ["themes"%string] None).
  vm_compute. reflexivity.
Defined.

(** What it takes to be a candidate of the full hash. *)
Lemma quick_candidates_provenance (w : world) (skip_patterns : list string)
  (root_dir : string) (t : tree) (p : Path) :
  In p (quick_candidates w skip_patterns root_dir t) ->
  In p (visited_files skip_patterns root_dir t)
  /\ readable (at_index w) p
  /\ readable (at_regroup w) p
  /\ exists c, fs_open (at_quick w) p = Some c.
Proof.
  unfold quick_candidates. intros Hp. apply flatten_several_incl in Hp.
  apply in_group_by_has_key in Hp. destruct Hp as [Hp [k Hk]].
  split; [now apply size_candidates_incl in Hp |].
  split; [now apply size_candidates_readable in Hp |].
  unfold quick_key, calculate_quick_hash, readable in *.
  destruct (fs_open (at_quick w) p) as [c |]; [| discriminate].
  destruct (truthy _); [| discriminate].
  destruct (fs_stat (at_regroup w) p); [| discriminate].
  split; [discriminate | eauto].
Qed.

(** X2. Every member of a reported group was visited by the walk, had
    readable metadata when indexed and when regrouped, could be opened for
    the quick hash, and has at full-hash time a content whose MD5 is the
    digest of the group: the members of one group share their digest. *)
Theorem group_members_share_digest (rt : runtime) (w : world) (t : tree)
  (root_dir : string) (skip_patterns : list string) (workers : option Z)
  (d : dict string (list Path)) (h : string) (g : list Path) (p : Path) :
  find_duplicates rt w t root_dir skip_patterns workers = Ok d ->
  In (h, g) d -> In p g ->
  In p (visited_files skip_patterns root_dir t)
  /\ readable (at_index w) p
  /\ readable (at_regroup w) p
  /\ (exists c, fs_open (at_quick w) p = Some c)
  /\ (exists c, fs_open (at_full w) p = Some c
                /\ MD5.hexdigest (MD5.md5 c) = h)
  /\ calculate_full_hash (at_full w) p = Some h.
Proof.
  intros Hfd Hin Hp. apply find_duplicates_Ok in Hfd. subst d.
  unfold funnel in Hin. apply filter_In in Hin. destruct Hin as [Hin _].
  apply group_by_In in Hin. subst g. apply filter_In in Hp.
  destruct Hp as [Hp Hkey]. apply has_key_true in Hkey.
  destruct (quick_candidates_provenance _ _ _ _ _ Hp) as (Hv & Hi & Hr & Hq).
  repeat (split; [assumption |]). split.
  - destruct (full_key_content _ _ _ Hkey) as (c & Hc & ->). eauto.
  - now apply truthy_Some in Hkey.
Qed.

Lemma group_members_share_digest_witness :
  calculate_full_hash sample_disk "/r/sub/d"%string
  = Some "5d41402abc4b2a76b9719d911017c592"%string.
Proof.
  apply (group_members_share_digest
           four_cores (steady sample_disk) sample_tree "/r"%string
           ["themes"%string] None sample_groups
           "5d41402abc4b2a76b9719d911017c592"%string
           ["/r/a"; "/r/b"; "/r/sub/d"]%string "/r/sub/d"%string).
  - vm_compute. reflexivity.
  - now left.
  - simpl. auto.
Defined.











(** ** Further properties of the first phase *)

Lemma index_path_total_size (fs : filesystem) (l : list Path) :
  forall st,
    snd (fold_left (index_path fs) l st)
    = snd st + Zsum (map (size_on_disk fs) l).
Proof.
  induction l as [| p l IH]; intros [[sm tf] ts]; cbn [fold_left map].
  - unfold Zsum. simpl. lia.
  - rewrite IH. unfold index_path, size_on_disk, Zsum.
    cbn [fold_right]. destruct (fs_stat fs p); cbn [snd]; lia.
Qed.

(** X7. After the first phase the bucket of a size lists, in the order of
    the walk, exactly the visited files for which [stat] gave that size;
    [total_files] counts the files whose [stat] succeeded and [total_size]
    adds up their sizes. *)
Theorem size_map_buckets (fs : filesystem) (skip_patterns : list string)
  (root_dir : string) (t : tree) :
  let '(size_map, total_files, total_size) :=
    index_by_size fs skip_patterns root_dir t in
  let visited := visited_files skip_patterns root_dir t in
  (forall s, dd_get s size_map = filter (has_key (size_key fs) s) visited)
  /\ total_files
     = Z.of_nat (length (filter (has_some (size_key fs)) visited))
  /\ total_size = Zsum (map (size_on_disk fs) visited).
Proof.
  pose proof (index_by_size_spec fs skip_patterns root_dir t) as [Hsm Htf].
  cbn zeta in Hsm, Htf.
  assert (Hts : snd (index_by_size fs skip_patterns root_dir t)
                = Zsum (map (size_on_disk fs)
                            (visited_files skip_patterns root_dir t))).
  { unfold index_by_size. rewrite os_walk_index, index_path_total_size.
    reflexivity. }
  destruct (index_by_size fs skip_patterns root_dir t) as [[sm tf] ts].
  cbn [fst snd] in *. subst sm. cbn zeta. split; [| split].
  - intros s. apply group_by_get.
  - rewrite Htf. f_equal. apply Permutation_length, group_by_perm.
  - exact Hts.
Qed.

(** X8. For a file of at most [QUICK_HASH_SIZE] bytes the quick hash is
    the full hash. *)
Theorem small_file_quick_hash_is_full (fs : filesystem) (file_path : Path)
  (content : list byte) :
  fs_open fs file_path = Some content ->
  (length content <= QUICK_HASH_SIZE)%nat ->
  calculate_quick_hash fs file_path = calculate_full_hash fs file_path.
Proof.
  intros Hopen Hlen. rewrite full_hash_is_whole_hash.
  unfold calculate_quick_hash, whole_content_hash, read. rewrite Hopen.
  cbn [fst unread]. now rewrite firstn_all2.
Qed.

Lemma small_file_quick_hash_is_full_witness :
  calculate_quick_hash sample_disk "/r/a"%string
  = calculate_full_hash sample_disk "/r/a"%string.
Proof.
  apply (small_file_quick_hash_is_full sample_disk "/r/a"%string
                                       (bytes_of "hello")).
  - reflexivity.
  - unfold QUICK_HASH_SIZE. cbn [bytes_of list_byte_of_string length map
                                          list_ascii_of_string].
    lia.
Defined.

(** X9. Whatever the flags, the worker count and the schedule of the
    pool, the executor returns one result per item, the result of the
    i-th item in the i-th place. *)
Theorem parallel_hash_in_input_order {A B} (rt : runtime) (func : A -> B)
  (items : list A) (workers : Z) (chunksize : nat) :
  (0 < chunksize)%nat ->
  length (parallel_hash rt func items workers chunksize) = length items
  /\ forall i,
      nth_error (parallel_hash rt func items workers chunksize) i
      = option_map func (nth_error items i).
Proof.
  intros Hc. rewrite parallel_hash_map by exact Hc.
  split; [apply length_map | intros i; apply nth_error_map].
Qed.

Lemma parallel_hash_in_input_order_witness :
  length (parallel_hash four_cores Z.succ [1; 2; 3; 4; 5] 3 2) = 5%nat
  /\ forall i,
      nth_error (parallel_hash four_cores Z.succ [1; 2; 3; 4; 5] 3 2) i
      = option_map Z.succ (nth_error [1; 2; 3; 4; 5] i).
Proof.
  apply (parallel_hash_in_input_order four_cores Z.succ [1; 2; 3; 4; 5] 3 2).
  lia.
Defined.

(** X10. A directory the walk reaches below the root is skipped exactly
    when the name its parent lists it under is in the skip-set. *)
Theorem subdirectory_skipped_iff_listed (top name : string)
  (skip_patterns : list string) :
  rfind_sep name = -1 ->
  should_skip_directory (path_join top name) skip_patterns = true
  <-> In name skip_patterns.
Proof.
  intros Hname. unfold should_skip_directory.
  rewrite basename_path_join by exact Hname.
  destruct (in_dec string_dec name skip_patterns); split; auto; discriminate.
Qed.

Lemma subdirectory_skipped_iff_listed_witness :
  should_skip_directory (path_join "/r/" "themes") ["themes"%string] = true
  <-> In "themes"%string ["themes"%string].
Proof.
  apply (subdirectory_skipped_iff_listed "/r/" "themes" ["themes"%string]).
  reflexivity.
Defined.

(** X11. In a tree whose directories list good, pairwise different names
    the walk comes across no path twice, and the first phase puts no path
    in two places of [size_map]. *)
Theorem walk_indexes_each_path_once (fs : filesystem)
  (skip_patterns : list string) (root_dir : string) (t : tree) :
  wf_tree t ->
  NoDup (visited_files skip_patterns root_dir t)
  /\ NoDup (concat (values (fst (fst (index_by_size fs skip_patterns
                                                    root_dir t))))).
Proof.
  intros Hwf.
  assert (Hnd : NoDup (visited_files skip_patterns root_dir t))
    by (apply visited_in_all; now apply wf_tree_all_files_NoDup).
  split; [exact Hnd |].
  destruct (index_by_size_spec fs skip_patterns root_dir t) as [Hsm _].
  cbn zeta in Hsm. rewrite Hsm. now apply group_by_NoDup.
Qed.

Lemma walk_indexes_each_path_once_witness :
  NoDup (visited_files ["themes"%string] "/r" sample_tree)
  /\ NoDup (concat (values (fst (fst (index_by_size sample_disk
                                                    ["themes"%string] "/r"
                                                    sample_tree))))).
Proof.
  apply (walk_indexes_each_path_once sample_disk ["themes"%string]
                                     "/r"%string sample_tree).
  cbn. repeat split; repeat constructor; simpl;
    try discriminate; intuition discriminate.
Defined.

(** * Further properties of the planner *)

Lemma group_decisions_length (fs : filesystem) (g : list Path) (k : Path) :
  keep_file fs g = Some k ->
  Z.of_nat (length (group_decisions fs g)) = Z.of_nat (length g) - 1.
Proof.
  unfold keep_file, group_decisions.
  pose proof (sorted_length (get_file_age fs) g) as Hlen.
  destruct (sorted (get_file_age fs) g) as [| k' newer]; [discriminate |].
  intros _. rewrite length_map. cbn [length] in Hlen. lia.
Qed.

Lemma analyze_loop_counters (fs : filesystem) (d : dict string (list Path)) :
  forall plan st plan' st',
    for_each (analyze_group fs) d (plan, st) = Ok (plan', st') ->
    total_files st'
    = total_files st + Z.of_nat (length (concat (values d)))
    /\ files_to_keep st' = files_to_keep st + Z.of_nat (length d)
    /\ files_to_delete st'
       = files_to_delete st + (Z.of_nat (length plan')
                               - Z.of_nat (length plan)).
Proof.
  induction d as [| [h g] d IH]; intros plan st plan' st' H.
  - simpl in H. inversion H; subst. simpl. lia.
  - cbn [for_each] in H. apply bind_Ok in H.
    destruct H as ([plan1 st1] & H1 & H).
    apply analyze_group_Ok in H1.
    destruct H1 as ((k & Hk & _) & -> & _ & Htf & Hkeep & Hdel & _).
    apply IH in H. destruct H as (Htf' & Hkeep' & Hdel').
    apply group_decisions_length in Hk.
    rewrite Htf', Hkeep', Hdel', Htf, Hkeep, Hdel.
    unfold values. cbn [map concat snd length].
    rewrite !length_app. lia.
Qed.

(** X12. The counters of the statistics: [groups] and [files_to_keep] are
    the number of groups, [total_files] the number of their members,
    [files_to_delete] the length of the plan, so that kept and deleted
    files add up to the total. *)
Theorem planner_counters (fs : filesystem) (d : dict string (list Path))
  (plan : list decision) (stats : statistics) :
  analyze_duplicates fs d = Ok (plan, stats) ->
  groups stats = Z.of_nat (length d)
  /\ files_to_keep stats = Z.of_nat (length d)
  /\ total_files stats = Z.of_nat (length (concat (values d)))
  /\ files_to_delete stats = Z.of_nat (length plan)
  /\ files_to_keep stats + files_to_delete stats = total_files stats.
Proof.
  unfold analyze_duplicates. intros H. pose proof H as H'.
  apply analyze_loop_counters in H. destruct H as (Htf & Hkeep & Hdel).
  apply analyze_loop_Ok in H'. destruct H' as (Hk & Hplan & Hg & _).
  cbn in Htf, Hkeep, Hdel, Hg.
  assert (Htotal : Z.of_nat (length d) + Z.of_nat (length plan)
                   = Z.of_nat (length (concat (values d)))).
  { rewrite Hplan. cbn [app]. clear - Hk.
    induction d as [| [h g] d IH]; [reflexivity |].
    unfold values in *. cbn [flat_map map concat snd length].
    rewrite !length_app, !Nat2Z.inj_add.
    destruct (Hk h g (or_introl eq_refl)) as (k & Hkf & _).
    apply group_decisions_length in Hkf.
    assert (IH' : Z.of_nat (length d)
                  + Z.of_nat (length (flat_map (fun item =>
                                                  group_decisions fs (snd item))
                                               d))
                  = Z.of_nat (length (concat (map snd d)))).
    { apply IH. intros h' g' Hin. apply (Hk h' g'). now right. }
    lia. }
  repeat split; lia.
Qed.

Lemma planner_counters_witness :
  groups {| groups := 1; total_files := 3; files_to_delete := 2;
            files_to_keep := 1; space_total := 5; space_wasted := 10 |}
  = Z.of_nat (length sample_groups)
  /\ 1 = Z.of_nat (length sample_groups)
  /\ 3 = Z.of_nat (length (concat (values sample_groups)))
  /\ 2 = Z.of_nat (length [("/r/sub/d", "/r/b", 5);
                           ("/r/a", "/r/b", 5)]%string)
  /\ 1 + 2 = 3.
Proof.
  apply (planner_counters
           sample_disk sample_groups
           [("/r/sub/d", "/r/b", 5); ("/r/a", "/r/b", 5)]%string
           {| groups := 1; total_files := 3; files_to_delete := 2;
              files_to_keep := 1; space_total := 5; space_wasted := 10 |}).
  vm_compute. reflexivity.
Defined.

Lemma sorted_nil_inv {A} (key : A -> age) (l : list A) :
  sorted key l = [] -> l = [].
Proof.
  intros H. pose proof (sorted_length key l) as Hlen. rewrite H in Hlen.
  destruct l; [reflexivity | discriminate].
Qed.

Lemma analyze_group_Raise (fs : filesystem)
  (acc : list decision * statistics) (h : string) (g : list Path) (e : exn) :
  analyze_group fs acc (h, g) = Raise e ->
  (e = IndexError /\ g = [])
  \/ (e = OSError /\ g <> [] /\ forall p, In p g -> fs_stat fs p = None).
Proof.
  destruct acc as [plan st]. unfold analyze_group.
  destruct (sorted (get_file_age fs) g) as [| k newer] eqn:Hs.
  - intros H. inversion H. left. split; [reflexivity |].
    now apply sorted_nil_inv in Hs.
  - destruct (fs_stat fs k) as [s |] eqn:Hk; [discriminate |].
    intros H. inversion H. right. split; [reflexivity |]. split.
    + intros ->. discriminate.
    + intros p Hp. pose proof (sorted_head_first _ _ _ _ Hs p Hp) as Hle.
      unfold get_file_age in Hle. rewrite Hk in Hle.
      destruct (fs_stat fs p); [discriminate | reflexivity].
Qed.

(** X13. The planner returns exactly when every group has a member whose
    metadata can be read.  Otherwise it raises [IndexError] on a group
    without members, or [OSError] on a group none of whose members can be
    read, and nothing else. *)
Theorem planner_failure_modes (fs : filesystem)
  (d : dict string (list Path)) :
  ((exists r, analyze_duplicates fs d = Ok r)
   <-> forall h g, In (h, g) d -> exists p, In p g /\ readable fs p)
  /\ forall e,
      analyze_duplicates fs d = Raise e ->
      (e = IndexError /\ exists h, In (h, []) d)
      \/ (e = OSError
          /\ exists h g, In (h, g) d /\ g <> []
                         /\ forall p, In p g -> fs_stat fs p = None).
Proof.
  split; [apply analyze_duplicates_returns_iff |].
  unfold analyze_duplicates. generalize ([] : list decision).
  generalize {| groups := Z.of_nat (length d); total_files := 0;
                files_to_delete := 0; files_to_keep := 0;
                space_total := 0; space_wasted := 0 |}.
  induction d as [| [h g] d IH]; intros st plan e H; [discriminate |].
  cbn [for_each] in H.
  destruct (analyze_group fs (plan, st) (h, g)) as [[plan1 st1] | e1] eqn:H1.
  - cbn [bind] in H. apply IH in H.
    destruct H as [(-> & h' & Hin) | (-> & h' & g' & Hin & Hne & Hall)].
    + left. split; [reflexivity |]. exists h'. now right.
    + right. split; [reflexivity |]. exists h', g'.
      split; [now right | auto].
  - cbn [bind] in H. inversion H; subst e1.
    apply analyze_group_Raise in H1.
    destruct H1 as [(-> & ->) | (-> & Hne & Hall)].
    + left. split; [reflexivity |]. exists h. now left.
    + right. split; [reflexivity |]. exists h, g. split; [now left | auto].
Qed.

Lemma planner_failure_modes_witness :
  (OSError = IndexError
   /\ exists h, In (h, []) [("0"%string, ["/gone"%string])])
  \/ (OSError = OSError
      /\ exists h g, In (h, g) [("0"%string, ["/gone"%string])] /\ g <> []
                     /\ forall p, In p g -> fs_stat pair_disk p = None).
Proof.
  apply (proj2 (planner_failure_modes
                  pair_disk [("0"%string, ["/gone"%string])]) OSError).
  vm_compute. reflexivity.
Defined.

Lemma Zsum_le (A : Type) (f g : A -> Z) (l : list A) :
  (forall x, In x l -> f x <= g x) ->
  Zsum (map f l) <= Zsum (map g l).
Proof.
  unfold Zsum. induction l as [| x l IH]; intros Hfg; simpl; [lia |].
  pose proof (Hfg x (or_introl eq_refl)).
  assert (fold_right Z.add 0 (map f l) <= fold_right Z.add 0 (map g l))
    by (apply IH; intros y Hy; apply Hfg; now right).
  lia.
Qed.

Lemma keep_size_nonneg (fs : filesystem) (g : list Path) :
  (forall p s, In p g -> fs_stat fs p = Some s -> 0 <= st_size s) ->
  0 <= keep_size fs g.
Proof.
  intros Hsizes. unfold keep_size.
  destruct (keep_file fs g) as [k |] eqn:Hk; [| lia].
  apply keep_file_In in Hk. unfold size_on_disk.
  destruct (fs_stat fs k) as [s |] eqn:Hs; [| lia]. now apply (Hsizes k).
Qed.

Lemma dd_append_printable (stdout : string -> bool) (k x : Path)
  (d : dict Path (list Path)) :
  stdout k = true -> stdout x = true ->
  Forall (printable stdout) d ->
  Forall (printable stdout) (dd_append k x d).
Proof.
  intros Hk Hx. induction d as [| [k' vs] d IH]; intros Hd; simpl.
  - repeat constructor; assumption.
  - apply Forall_cons_iff in Hd. destruct Hd as [[Hk' Hvs] Hd].
    cbn [fst snd] in Hk', Hvs.
    destruct (eq_dec k' k) as [_ | _].
    + constructor; [| exact Hd]. split; [exact Hk' |]. cbn [snd].
      apply Forall_app. split; [exact Hvs | now constructor].
    + constructor; [now split | now apply IH].
Qed.

Lemma example_groups_printable (stdout : string -> bool)
  (plan : list decision) :
  (forall entry, In entry plan ->
                 stdout (keep_target entry) = true
                 /\ stdout (delete_target entry) = true) ->
  Forall (printable stdout) (example_groups plan).
Proof.
  unfold example_groups.
  assert (Hgen : forall acc : dict Path (list Path),
             (forall entry, In entry plan ->
                            stdout (keep_target entry) = true
                            /\ stdout (delete_target entry) = true) ->
             Forall (printable stdout) acc ->
             Forall (printable stdout) (fold_left example_step plan acc)).
  { induction plan as [| [[to_delete to_keep] size] plan IH];
      intros acc Hplan Hacc; [exact Hacc |].
    cbn [fold_left]. apply IH; [intros entry Hin; apply Hplan; now right |].
    destruct (Hplan (to_delete, to_keep, size) (or_introl eq_refl))
      as [Hk Hx].
    unfold example_step. now apply dd_append_printable. }
  intros Hplan. apply Hgen; [exact Hplan | constructor].
Qed.

Lemma Forall_firstn_all {A} (P : A -> Prop) (l : list A) :
  Forall P l -> forall n, Forall P (firstn n l).
Proof.
  induction 1 as [| x l Hx _ IH]; intros [| n]; simpl; constructor; auto.
Qed.

Lemma print_paths_Ok (stdout : string -> bool) (l : list Path) :
  Forall (fun p => stdout p = true) l ->
  for_each (fun _ delete_file => print_path stdout delete_file) l tt = Ok tt.
Proof.
  induction 1 as [| x l Hx _ IH]; [reflexivity |].
  cbn [for_each]. unfold print_path at 1. rewrite Hx. exact IH.
Qed.

Lemma print_examples_Ok (stdout : string -> bool)
  (groups : list (Path * list Path)) :
  Forall (printable stdout) groups ->
  for_each (print_example stdout) groups tt = Ok tt.
Proof.
  induction 1 as [| [k ds] groups [Hk Hds] _ IH]; [reflexivity |].
  cbn [for_each fst snd] in *. unfold print_example at 1, print_path at 1.
  rewrite Hk. cbn [bind]. rewrite (print_paths_Ok _ _ Hds). exact IH.
Qed.

(** X14. For groups of at least two members each, with sizes that are not
    negative and some keep file not empty, and when the standard output
    can encode the paths of the plan, [print_statistics] does not raise,
    and the waste percentage it prints is at least 50 and below 100: the
    copies to delete weigh at least as much as the files kept. *)
Theorem waste_percentage_bounds (stdout : string -> bool) (fs : filesystem)
  (d : dict string (list Path)) (plan : list decision) (stats : statistics) :
  analyze_duplicates fs d = Ok (plan, stats) ->
  (forall h g, In (h, g) d -> (2 <= length g)%nat) ->
  (forall h g p s, In (h, g) d -> In p g -> fs_stat fs p = Some s ->
                   0 <= st_size s) ->
  0 < space_total stats ->
  (forall entry, In entry plan ->
                 stdout (keep_target entry) = true
                 /\ stdout (delete_target entry) = true) ->
  space_total stats <= space_wasted stats
  /\ exists q, print_statistics stdout stats plan = Ok q
               /\ Qle (inject_Z 50) q /\ Qlt q (inject_Z 100).
Proof.
  intros H Hplural Hsizes Hpos Hstdout. unfold analyze_duplicates in H.
  apply analyze_loop_Ok in H. destruct H as (_ & _ & _ & Ht & Hw).
  cbn in Ht, Hw.
  assert (Hle : space_total stats <= space_wasted stats).
  { rewrite Ht, Hw. apply Zsum_le. intros [h g] Hin. cbn [snd].
    pose proof (Hplural h g Hin).
    pose proof (keep_size_nonneg fs g (fun p s => Hsizes h g p s Hin)).
    nia. }
  split; [exact Hle |].
  unfold print_statistics, true_div, printed_examples.
  destruct (space_total stats + space_wasted stats =? 0) eqn:Hz;
    [apply Z.eqb_eq in Hz; lia |].
  cbn [bind]. cbv beta iota zeta.
  rewrite print_examples_Ok
    by (apply Forall_firstn_all; now apply example_groups_printable).
  cbn [bind]. eexists. split; [reflexivity |].
  destruct (space_total stats + space_wasted stats) as [| n | n] eqn:Hsum;
    try lia.
  destruct (space_wasted stats) as [| m | m] eqn:Hwasted; try lia.
  unfold Qle, Qlt. cbn [Qnum Qden Qmult Qinv Qdiv inject_Z].
  rewrite ?Pos2Z.inj_mul. split; lia.
Qed.

Lemma disk_sizes_nonneg (entries : list (Path * (Z * list byte))) (p : Path)
  (s : stat_result) :
  fs_stat (disk entries) p = Some s -> 0 <= st_size s.
Proof.
  unfold disk. cbn [fs_stat].
  destruct (lookup p entries) as [[m c] |]; [| discriminate].
  intros H. inversion H; subst. cbn [st_size]. lia.
Qed.

Lemma waste_percentage_bounds_witness :
  5 <= 10
  /\ exists q,
      print_statistics
        (fun _ => true)
        {| groups := 1; total_files := 3; files_to_delete := 2;
           files_to_keep := 1; space_total := 5; space_wasted := 10 |}
        [("/r/sub/d", "/r/b", 5); ("/r/a", "/r/b", 5)]%string = Ok q
      /\ Qle (inject_Z 50) q /\ Qlt q (inject_Z 100).
Proof.
  apply (waste_percentage_bounds
           (fun _ => true) sample_disk sample_groups
           [("/r/sub/d", "/r/b", 5); ("/r/a", "/r/b", 5)]%string
           {| groups := 1; total_files := 3; files_to_delete := 2;
              files_to_keep := 1; space_total := 5; space_wasted := 10 |}).
  - vm_compute. reflexivity.
  - intros h g [Heq | []]. inversion Heq; subst. simpl. lia.
  - intros h g p s _ _ Hs. exact (disk_sizes_nonneg _ _ _ Hs).
  - simpl. lia.
  - intros entry _. split; reflexivity.
Defined.

(** * The deletion executor *)

Section Deleting.
Variables (TRASH_AVAILABLE : bool) (locked : Path -> bool).

Lemma remove_file_Ok (v v' : volume) (p : Path) :
  (if TRASH_AVAILABLE then send2trash locked v p else os_remove locked v p)
  = Ok v' ->
  In p (present v) /\ locked p = false
  /\ present v' = remove string_dec p (present v)
  /\ recycle_bin v'
     = if TRASH_AVAILABLE then recycle_bin v ++ [p] else recycle_bin v.
Proof.
  unfold send2trash, os_remove.
  destruct TRASH_AVAILABLE;
    (destruct (in_dec string_dec p (present v)); [| discriminate]);
    (destruct (locked p); [discriminate |]);
    intros H; inversion H; subst; auto.
Qed.

Lemma remove_file_returns (v : volume) (p : Path) :
  In p (present v) -> locked p = false ->
  exists v',
    (if TRASH_AVAILABLE then send2trash locked v p else os_remove locked v p)
    = Ok v'.
Proof.
  intros Hin Hfree. unfold send2trash, os_remove.
  destruct TRASH_AVAILABLE;
    (destruct (in_dec string_dec p (present v)); [| contradiction]);
    rewrite Hfree; eauto.
Qed.

Lemma remove_length (p : Path) (l : list Path) :
  NoDup l -> In p l -> S (length (remove string_dec p l)) = length l.
Proof.
  induction l as [| x l IH]; intros Hnd Hin; [destruct Hin |].
  apply NoDup_cons_iff in Hnd. destruct Hnd as [Hnotin Hnd]. simpl.
  destruct (string_dec p x) as [-> | Hne].
  - now rewrite notin_remove.
  - simpl. f_equal. apply IH; [exact Hnd |].
    destruct Hin as [-> | Hin]; [congruence | exact Hin].
Qed.

Lemma remove_NoDup (p : Path) (l : list Path) :
  NoDup l -> NoDup (remove string_dec p l).
Proof.
  induction l as [| x l IH]; intros Hnd; [constructor |].
  apply NoDup_cons_iff in Hnd. destruct Hnd as [Hnotin Hnd]. simpl.
  destruct (string_dec p x); [now apply IH |].
  constructor; [| now apply IH]. intros Hin. apply in_remove in Hin. tauto.
Qed.

(** What the loop of [delete_files] has done when it ends. *)
Lemma delete_loop_spec (plan : list decision) :
  forall v deleted failed freed v' deleted' failed' freed',
    fold_left (delete_entry TRASH_AVAILABLE locked) plan
              (v, (deleted, failed, freed))
    = (v', (deleted', failed', freed')) ->
    deleted' + failed' = deleted + failed + Z.of_nat (length plan)
    /\ deleted <= deleted' /\ failed <= failed'
    /\ (forall p, In p (present v') -> In p (present v))
    /\ (forall p, In p (present v) ->
                  ~ In p (map delete_target plan) -> In p (present v'))
    /\ (forall p, In p (present v) -> locked p = true -> In p (present v'))
    /\ (NoDup (present v) ->
        NoDup (present v')
        /\ Z.of_nat (length (present v'))
           = Z.of_nat (length (present v)) - (deleted' - deleted))
    /\ (TRASH_AVAILABLE = true ->
        forall p, In p (present v) \/ In p (recycle_bin v) ->
                  In p (present v') \/ In p (recycle_bin v'))
    /\ (TRASH_AVAILABLE = false -> recycle_bin v' = recycle_bin v).
Proof.
  induction plan as [| [[to_delete to_keep] size] plan IH];
    intros v deleted failed freed v' deleted' failed' freed' H.
  - simpl in H. inversion H; subst. simpl.
    repeat split; auto; try lia.
  - cbn [fold_left] in H. unfold delete_entry at 2 in H.
    destruct (if TRASH_AVAILABLE then send2trash locked v to_delete
              else os_remove locked v to_delete) as [v1 | e] eqn:Hstep.
    + apply remove_file_Ok in Hstep.
      destruct Hstep as (Hin & Hfree & Hpresent & Hbin).
      apply IH in H.
      destruct H as (Hcount & Hdel & Hfail & Hsub & Hframe & Hlock & Hlen
                     & Htrash & Hperm).
      rewrite Hpresent in *. cbn [length map].
      split; [lia |]. split; [lia |]. split; [lia |].
      split; [intros p Hp; apply Hsub in Hp; now apply in_remove in Hp |].
      split.
      { intros p Hp Hnot. apply Hframe.
        - apply in_in_remove; [| exact Hp]. intros ->. apply Hnot. now left.
        - intros Hin'. apply Hnot. now right. }
      split.
      { intros p Hp Hl. apply Hlock; [| exact Hl].
        apply in_in_remove; [| exact Hp]. intros ->. congruence. }
      split.
      { intros Hnd. destruct (Hlen (remove_NoDup _ _ Hnd)) as [Hnd' Hl].
        split; [exact Hnd' |]. pose proof (remove_length _ _ Hnd Hin).
        unfold Path in *. lia. }
      split.
      { intros Ht p Hp. apply (Htrash Ht). rewrite Hbin, Ht.
        destruct (string_dec p to_delete) as [-> | Hne].
        - right. apply in_or_app. right. now left.
        - destruct Hp as [Hp | Hp].
          + left. now apply in_in_remove.
          + right. apply in_or_app. now left. }
      { intros Ht. rewrite (Hperm Ht), Hbin, Ht. reflexivity. }
    + apply IH in H.
      destruct H as (Hcount & Hdel & Hfail & Hsub & Hframe & Hlock & Hlen
                     & Htrash & Hperm).
      cbn [length map].
      split; [lia |]. split; [lia |]. split; [lia |].
      split; [exact Hsub |].
      split; [intros p Hp Hnot; apply Hframe; [exact Hp |];
              intros Hin'; apply Hnot; now right |].
      split; [exact Hlock |].
      split; [intros Hnd; destruct (Hlen Hnd); split; [assumption | lia] |].
      split; assumption.
Qed.

(** When every target is there, free and listed once, every removal
    succeeds. *)
Lemma delete_loop_all (plan : list decision) :
  forall v deleted failed freed,
    NoDup (map delete_target plan) ->
    (forall dec, In dec plan ->
                 In (delete_target dec) (present v)
                 /\ locked (delete_target dec) = false) ->
    exists v',
      fold_left (delete_entry TRASH_AVAILABLE locked) plan
                (v, (deleted, failed, freed))
      = (v', (deleted + Z.of_nat (length plan), failed,
              freed + Zsum (map snd plan))).
Proof.
  induction plan as [| [[to_delete to_keep] size] plan IH];
    intros v deleted failed freed Hnd Hall.
  - exists v. unfold Zsum. cbn [fold_left map fold_right length].
    apply f_equal. apply f_equal2; [apply f_equal2; [| reflexivity] |]; lia.
  - cbn [map] in Hnd. apply NoDup_cons_iff in Hnd.
    destruct Hnd as [Hnotin Hnd].
    destruct (Hall _ (or_introl eq_refl)) as [Hin Hfree].
    cbn [delete_target fst] in Hin, Hfree, Hnotin.
    destruct (remove_file_returns v to_delete Hin Hfree) as [v1 Hstep].
    cbn [fold_left]. unfold delete_entry at 2. rewrite Hstep.
    apply remove_file_Ok in Hstep. destruct Hstep as (_ & _ & Hpresent & _).
    destruct (IH v1 (deleted + 1) failed (freed + size) Hnd) as [v' Hv'].
    + intros dec Hdec. destruct (Hall dec (or_intror Hdec)) as [Hp Hf].
      split; [| exact Hf]. rewrite Hpresent. apply in_in_remove; [| exact Hp].
      intros Heq. apply Hnotin. rewrite <- Heq. now apply in_map.
    + exists v'. rewrite Hv'. unfold Zsum. cbn [map fold_right snd length].
      apply f_equal.
      apply f_equal2; [apply f_equal2; [| reflexivity] |]; lia.
Qed.
End Deleting.

Lemma delete_files_loop (rt : runtime) (TRASH_AVAILABLE : bool)
  (locked : Path -> bool) (plan : list decision) (v : volume) :
  delete_files rt TRASH_AVAILABLE locked plan v
  = fold_left (delete_entry TRASH_AVAILABLE locked) plan (v, (0, 0, 0)).
Proof. unfold delete_files, tqdm. now destruct (TQDM_AVAILABLE rt). Qed.

(** X15. [delete_files] accounts for every entry of the plan, as deleted
    or as failed, and [deleted] is the number of files that have left the
    volume. *)
Theorem delete_files_accounting (rt : runtime) (TRASH_AVAILABLE : bool)
  (locked : Path -> bool) (plan : list decision) (v v' : volume)
  (deleted failed freed : Z) :
  delete_files rt TRASH_AVAILABLE locked plan v
  = (v', (deleted, failed, freed)) ->
  deleted + failed = Z.of_nat (length plan)
  /\ 0 <= deleted /\ 0 <= failed
  /\ (NoDup (present v) ->
      Z.of_nat (length (present v'))
      = Z.of_nat (length (present v)) - deleted).
Proof.
  rewrite delete_files_loop. intros H. apply delete_loop_spec in H.
  destruct H as (Hcount & Hdel & Hfail & _ & _ & _ & Hlen & _).
  repeat split; try lia. intros Hnd. destruct (Hlen Hnd). lia.
Qed.

Lemma delete_files_accounting_witness :
  2 + 0 = Z.of_nat (length sample_plan)
  /\ 0 <= 2 /\ 0 <= 0
  /\ (NoDup (present sample_volume) ->
      Z.of_nat (length ["/r/b"; "/r/c"; "/r/sub/e"]%string)
      = Z.of_nat (length (present sample_volume)) - 2).
Proof.
  apply (delete_files_accounting
           four_cores true nothing_locked sample_plan sample_volume
           {| present := ["/r/b"; "/r/c"; "/r/sub/e"]%string;
              recycle_bin := ["/r/sub/d"; "/r/a"]%string |} 2 0 10).
  vm_compute. reflexivity.
Defined.

(** X16. [delete_files] takes nothing off the volume but delete targets
    of the plan, takes no locked file, and puts nothing on the volume. *)
Theorem delete_files_frame (rt : runtime) (TRASH_AVAILABLE : bool)
  (locked : Path -> bool) (plan : list decision) (v v' : volume)
  (counts : deletion_count) :
  delete_files rt TRASH_AVAILABLE locked plan v = (v', counts) ->
  (forall p, In p (present v') -> In p (present v))
  /\ (forall p, In p (present v) ->
                ~ In p (map delete_target plan) -> In p (present v'))
  /\ (forall p, In p (present v) -> locked p = true -> In p (present v')).
Proof.
  rewrite delete_files_loop. destruct counts as [[deleted failed] freed].
  intros H. apply delete_loop_spec in H.
  destruct H as (_ & _ & _ & Hsub & Hframe & Hlock & _). auto.
Qed.

Lemma delete_files_frame_witness :
  (forall p, In p ["/r/b"; "/r/c"; "/r/sub/e"]%string ->
             In p (present sample_volume))
  /\ (forall p, In p (present sample_volume) ->
                ~ In p (map delete_target sample_plan) ->
                In p ["/r/b"; "/r/c"; "/r/sub/e"]%string)
  /\ (forall p, In p (present sample_volume) -> nothing_locked p = true ->
                In p ["/r/b"; "/r/c"; "/r/sub/e"]%string).
Proof.
  apply (delete_files_frame
           one_core false nothing_locked sample_plan sample_volume
           {| present := ["/r/b"; "/r/c"; "/r/sub/e"]%string;
              recycle_bin := [] |} (2, 0, 10)).
  vm_compute. reflexivity.
Defined.

(** X17. With the recycle bin, every file of the volume is afterwards on
    the volume or in the bin; without it, the bin is left as it was. *)
Theorem recycle_bin_keeps_deleted_files (rt : runtime)
  (TRASH_AVAILABLE : bool) (locked : Path -> bool) (plan : list decision)
  (v v' : volume) (counts : deletion_count) :
  delete_files rt TRASH_AVAILABLE locked plan v = (v', counts) ->
  (TRASH_AVAILABLE = true ->
   forall p, In p (present v) ->
             In p (present v') \/ In p (recycle_bin v'))
  /\ (TRASH_AVAILABLE = false -> recycle_bin v' = recycle_bin v).
Proof.
  rewrite delete_files_loop. destruct counts as [[deleted failed] freed].
  intros H. apply delete_loop_spec in H.
  destruct H as (_ & _ & _ & _ & _ & _ & _ & Htrash & Hperm).
  split; [| exact Hperm]. intros Ht p Hp. apply (Htrash Ht). now left.
Qed.

Lemma recycle_bin_keeps_deleted_files_witness :
  (true = true ->
   forall p, In p (present sample_volume) ->
             In p ["/r/b"; "/r/c"; "/r/sub/e"]%string
             \/ In p ["/r/sub/d"; "/r/a"]%string)
  /\ (true = false -> ["/r/sub/d"; "/r/a"]%string = recycle_bin sample_volume).
Proof.
  apply (recycle_bin_keeps_deleted_files
           four_cores true nothing_locked sample_plan sample_volume
           {| present := ["/r/b"; "/r/c"; "/r/sub/e"]%string;
              recycle_bin := ["/r/sub/d"; "/r/a"]%string |} (2, 0, 10)).
  vm_compute. reflexivity.
Defined.

(** ** From the plan to the volume *)

Lemma map_flat_map {A B C} (f : B -> C) (g : A -> list B) (l : list A) :
  map f (flat_map g l) = flat_map (fun x => map f (g x)) l.
Proof.
  induction l as [| x l IH]; [reflexivity |].
  simpl. now rewrite map_app, IH.
Qed.

Lemma group_decisions_delete_targets (fs : filesystem) (g : list Path) :
  map delete_target (group_decisions fs g) = tl (sorted (get_file_age fs) g).
Proof.
  unfold group_decisions.
  destruct (sorted (get_file_age fs) g) as [| k newer]; [reflexivity |].
  rewrite map_map. cbn [tl]. unfold delete_target. cbn [fst].
  apply map_id.
Qed.

Lemma group_decisions_sizes (fs : filesystem) (g : list Path) (k : Path) :
  keep_file fs g = Some k ->
  Zsum (map snd (group_decisions fs g))
  = keep_size fs g * (Z.of_nat (length g) - 1).
Proof.
  intros Hk. unfold keep_size. rewrite Hk. revert Hk.
  unfold keep_file, group_decisions.
  pose proof (sorted_length (get_file_age fs) g) as Hlen.
  destruct (sorted (get_file_age fs) g) as [| k' newer]; [discriminate |].
  cbn [hd_error]. intros Hk. inversion Hk; subst k'. cbn [length] in Hlen.
  replace (Z.of_nat (length g) - 1) with (Z.of_nat (length newer)) by lia.
  rewrite map_map. cbn [snd]. clear. unfold Zsum.
  induction newer as [| n newer IH]; simpl; [lia |].
  rewrite IH. lia.
Qed.

Lemma plan_of_groups (fs : filesystem) (d : dict string (list Path))
  (plan : list decision) (stats : statistics) :
  analyze_duplicates fs d = Ok (plan, stats) ->
  plan = flat_map (fun item => group_decisions fs (snd item)) d
  /\ forall h g, In (h, g) d ->
                 exists k, keep_file fs g = Some k /\ readable fs k.
Proof.
  unfold analyze_duplicates. intros H. apply analyze_loop_Ok in H.
  destruct H as (Hk & Hplan & _). split; [exact Hplan | exact Hk].
Qed.

Lemma Zsum_app (l1 l2 : list Z) : Zsum (l1 ++ l2) = Zsum l1 + Zsum l2.
Proof.
  unfold Zsum. induction l1 as [| x l1 IH]; simpl; [reflexivity |].
  rewrite IH. lia.
Qed.

(** The sizes of the plan add up to the space announced as wasted. *)
Lemma plan_sizes_sum (fs : filesystem) (d : dict string (list Path))
  (plan : list decision) (stats : statistics) :
  analyze_duplicates fs d = Ok (plan, stats) ->
  Zsum (map snd plan) = space_wasted stats.
Proof.
  intros H. destruct (plan_of_groups _ _ _ _ H) as [Hplan Hk].
  unfold analyze_duplicates in H. apply analyze_loop_Ok in H.
  destruct H as (_ & _ & _ & _ & Hw). cbn in Hw. rewrite Hw, Hplan.
  clear - Hk. induction d as [| [h g] d IH]; [reflexivity |].
  change (flat_map (fun item => group_decisions fs (snd item)) ((h, g) :: d))
    with (group_decisions fs g
          ++ flat_map (fun item => group_decisions fs (snd item)) d).
  rewrite map_app, Zsum_app.
  destruct (Hk h g (or_introl eq_refl)) as (k & Hkf & _).
  unfold decision in *. rewrite (group_decisions_sizes fs g k Hkf).
  rewrite IH by (intros h' g' Hin; apply (Hk h' g'); now right).
  reflexivity.
Qed.

Lemma plan_delete_targets_NoDup (fs : filesystem)
  (d : dict string (list Path)) (plan : list decision) (stats : statistics) :
  analyze_duplicates fs d = Ok (plan, stats) ->
  NoDup (concat (values d)) ->
  NoDup (map delete_target plan)
  /\ forall p, In p (map delete_target plan) -> In p (concat (values d)).
Proof.
  intros H Hnd. destruct (plan_of_groups _ _ _ _ H) as [-> _].
  rewrite map_flat_map. unfold values in *.
  rewrite <- flat_map_concat_map in *.
  assert (Hsub : forall item : string * list Path,
             incl (map delete_target (group_decisions fs (snd item)))
                  (snd item)
             /\ (NoDup (snd item) ->
                 NoDup (map delete_target (group_decisions fs (snd item))))).
  { intros [h g]. cbn [snd]. rewrite group_decisions_delete_targets.
    split.
    - intros p Hp. apply (sorted_In (get_file_age fs)).
      destruct (sorted (get_file_age fs) g); [destruct Hp | now right].
    - intros Hg. apply (sorted_NoDup (get_file_age fs)) in Hg.
      destruct (sorted (get_file_age fs) g) as [| k newer]; [constructor |].
      now apply NoDup_cons_iff in Hg. }
  split.
  - revert Hnd. apply NoDup_flat_map_sub. intros item _. apply Hsub.
  - intros p Hp. apply in_flat_map in Hp. destruct Hp as (item & Hitem & Hp).
    apply in_flat_map. exists item. split; [exact Hitem |].
    now apply (proj1 (Hsub item)).
Qed.

(** X18. When no path occurs twice in the groups and every member is on
    the volume and free, every deletion succeeds: [delete_files] reports
    as deleted the [files_to_delete] of the statistics, nothing as failed,
    and as freed the [space_wasted] of the statistics. *)
Theorem all_deletions_succeed (rt : runtime) (TRASH_AVAILABLE : bool)
  (locked : Path -> bool) (fs : filesystem) (d : dict string (list Path))
  (plan : list decision) (stats : statistics) (v : volume) :
  analyze_duplicates fs d = Ok (plan, stats) ->
  NoDup (concat (values d)) ->
  (forall p, In p (concat (values d)) ->
             In p (present v) /\ locked p = false) ->
  exists v',
    delete_files rt TRASH_AVAILABLE locked plan v
    = (v', (files_to_delete stats, 0, space_wasted stats)).
Proof.
  intros H Hnd Hall.
  destruct (plan_delete_targets_NoDup _ _ _ _ H Hnd) as [Htargets Hincl].
  destruct (delete_loop_all TRASH_AVAILABLE locked plan v 0 0 0 Htargets)
    as [v' Hv'].
  - intros dec Hdec. apply Hall, Hincl. now apply in_map.
  - exists v'. rewrite delete_files_loop, Hv'.
    rewrite (plan_sizes_sum _ _ _ _ H).
    unfold analyze_duplicates in H. apply analyze_loop_counters in H.
    destruct H as (_ & _ & Hdel). cbn in Hdel.
    apply f_equal.
    apply f_equal2; [apply f_equal2; [| reflexivity] |]; lia.
Qed.

Lemma all_deletions_succeed_witness :
  exists v',
    delete_files four_cores true nothing_locked sample_plan sample_volume
    = (v', (files_to_delete sample_stats, 0, space_wasted sample_stats)).
Proof.
  apply (all_deletions_succeed four_cores true nothing_locked sample_disk
                               sample_groups sample_plan sample_stats
                               sample_volume).
  - vm_compute. reflexivity.
  - vm_compute. repeat constructor; simpl; intuition discriminate.
  - intros p Hp. vm_compute in Hp.
    repeat (destruct Hp as [<- | Hp]); try contradiction;
      (split; [vm_compute; tauto | reflexivity]).
Defined.

(** The keep file of a group is no delete target of the plan. *)
Lemma keep_file_not_deleted (fs : filesystem) (d : dict string (list Path))
  (plan : list decision) (stats : statistics) (h : string) (g : list Path)
  (k : Path) :
  analyze_duplicates fs d = Ok (plan, stats) ->
  NoDup (concat (values d)) ->
  In (h, g) d -> keep_file fs g = Some k ->
  ~ In k (map delete_target plan).
Proof.
  intros H Hnd Hg Hk Hin.
  destruct (plan_of_groups _ _ _ _ H) as [-> _].
  rewrite map_flat_map in Hin. apply in_flat_map in Hin.
  destruct Hin as ([h' g'] & Hg' & Hin). cbn [snd] in Hin.
  rewrite group_decisions_delete_targets in Hin.
  assert (Hkg : In k g) by now apply keep_file_In in Hk.
  assert (Hkg' : In k g').
  { apply (sorted_In (get_file_age fs)).
    destruct (sorted (get_file_age fs) g'); [destruct Hin | now right]. }
  assert (g = g').
  { apply (NoDup_concat_same (values d) g g' k); try assumption.
    - apply in_map_iff. now exists (h, g).
    - apply in_map_iff. now exists (h', g'). }
  subst g'.
  assert (Hsorted : NoDup (sorted (get_file_age fs) g)).
  { apply sorted_NoDup. apply (NoDup_concat_In (values d));
      [exact Hnd | apply in_map_iff; now exists (h, g)]. }
  unfold keep_file in Hk.
  destruct (sorted (get_file_age fs) g) as [| k' newer]; [discriminate |].
  cbn [hd_error tl] in Hk, Hin. inversion Hk; subst k'.
  apply NoDup_cons_iff in Hsorted. tauto.
Qed.

(** X19. Scan, plan and deletion together never remove the file kept of a
    group: in a tree where no path names two files, the keep file of
    every reported group that is on the volume before [delete_files] runs
    is on the volume afterwards. *)
Theorem keep_files_survive (rt : runtime) (w : world) (t : tree)
  (root_dir : string) (skip_patterns : list string) (workers : option Z)
  (fs : filesystem) (d : dict string (list Path)) (plan : list decision)
  (stats : statistics) (TRASH_AVAILABLE : bool) (locked : Path -> bool)
  (v v' : volume) (counts : deletion_count) :
  NoDup (all_files root_dir t) ->
  find_duplicates rt w t root_dir skip_patterns workers = Ok d ->
  analyze_duplicates fs d = Ok (plan, stats) ->
  delete_files rt TRASH_AVAILABLE locked plan v = (v', counts) ->
  forall h g,
    In (h, g) d ->
    exists k, keep_file fs g = Some k
              /\ In k g
              /\ (In k (present v) -> In k (present v')).
Proof.
  intros Htree Hfd Hplan Hdel h g Hg.
  assert (Hnd : NoDup (concat (values d))).
  { apply find_duplicates_Ok in Hfd. subst d. apply funnel_NoDup.
    now apply visited_in_all. }
  destruct (plan_of_groups _ _ _ _ Hplan) as [_ Hk].
  destruct (Hk h g Hg) as (k & Hkf & _). exists k.
  split; [exact Hkf |]. split; [now apply keep_file_In in Hkf |].
  intros Hpresent. rewrite delete_files_loop in Hdel.
  destruct counts as [[deleted failed] freed].
  apply delete_loop_spec in Hdel.
  destruct Hdel as (_ & _ & _ & _ & Hframe & _).
  apply Hframe; [exact Hpresent |].
  now apply (keep_file_not_deleted fs d plan stats h g k).
Qed.

Lemma keep_files_survive_witness :
  exists k, keep_file sample_disk ["/r/a"; "/r/b"; "/r/sub/d"]%string = Some k
            /\ In k ["/r/a"; "/r/b"; "/r/sub/d"]%string
            /\ (In k (present sample_volume) ->
                In k ["/r/b"; "/r/c"; "/r/sub/e"]%string).
Proof.
  refine (keep_files_survive
           four_cores (steady sample_disk) sample_tree "/r"%string
           ["themes"%string] None sample_disk sample_groups sample_plan
           sample_stats true nothing_locked sample_volume
           {| present := ["/r/b"; "/r/c"; "/r/sub/e"]%string;
              recycle_bin := ["/r/sub/d"; "/r/a"]%string |} (2, 0, 10)
           _ _ _ _ "5d41402abc4b2a76b9719d911017c592"%string
           ["/r/a"; "/r/b"; "/r/sub/d"]%string _).
  - vm_compute. repeat constructor; simpl; intuition discriminate.
  - vm_compute. reflexivity.
  - vm_compute. reflexivity.
  - vm_compute. reflexivity.
  - left. reflexivity.
Defined.

(** ** The examples of the report *)

Lemma dd_append_fresh {K V} `{EqDec K} (k : K) (x : V) (d : dict K (list V)) :
  ~ In k (map fst d) -> dd_append k x d = d ++ [(k, [x])].
Proof.
  induction d as [| [k' vs] d IH]; intros Hk; [reflexivity |].
  simpl in *. destruct (eq_dec k' k) as [-> | _]; [tauto |].
  rewrite IH by tauto. reflexivity.
Qed.

Lemma dd_append_last {K V} `{EqDec K} (k : K) (x : V) (vs : list V)
  (d : dict K (list V)) :
  ~ In k (map fst d) ->
  dd_append k x (d ++ [(k, vs)]) = d ++ [(k, vs ++ [x])].
Proof.
  induction d as [| [k' vs'] d IH]; intros Hk; simpl in *.
  - destruct (eq_dec k k); [reflexivity | congruence].
  - destruct (eq_dec k' k) as [-> | _]; [tauto |].
    rewrite IH by tauto. reflexivity.
Qed.

Lemma example_fold_group (k : Path) (size : Z) (newer : list Path) :
  forall (acc : dict Path (list Path)) (vs : list Path),
    ~ In k (map fst acc) ->
    fold_left example_step
              (map (fun n : Path => (n, k, size)) newer) (acc ++ [(k, vs)])
    = acc ++ [(k, vs ++ newer)].
Proof.
  induction newer as [| n newer IH]; intros acc vs Hk.
  - simpl. now rewrite app_nil_r.
  - cbn [map fold_left]. unfold example_step at 2.
    rewrite dd_append_last by exact Hk. rewrite IH by exact Hk.
    now rewrite <- app_assoc.
Qed.

Lemma example_fold_new_group (k : Path) (size : Z) (n : Path)
  (newer : list Path) (acc : dict Path (list Path)) :
  ~ In k (map fst acc) ->
  fold_left example_step
            (map (fun n : Path => (n, k, size)) (n :: newer)) acc
  = acc ++ [(k, n :: newer)].
Proof.
  intros Hk. cbn [map fold_left]. unfold example_step at 2.
  rewrite dd_append_fresh by exact Hk.
  now rewrite example_fold_group.
Qed.

(** The report regroups the plan into the groups it was made of. *)
Lemma example_fold_groups (fs : filesystem) (d : dict string (list Path)) :
  forall acc : dict Path (list Path),
    NoDup (concat (values d)) ->
    (forall h g, In (h, g) d -> (2 <= length g)%nat) ->
    (forall k h g, In k (map fst acc) -> In (h, g) d -> ~ In k g) ->
    fold_left example_step
              (flat_map (fun item => group_decisions fs (snd item)) d) acc
    = acc ++ map (fun item =>
                    (hd EmptyString (sorted (get_file_age fs) (snd item)),
                     tl (sorted (get_file_age fs) (snd item)))) d.
Proof.
  induction d as [| [h g] d IH]; intros acc Hnd Hplural Hfresh.
  - simpl. now rewrite app_nil_r.
  - cbn [flat_map map snd]. rewrite fold_left_app.
    unfold values in Hnd. cbn [map concat snd] in Hnd.
    apply NoDup_app_inv in Hnd. destruct Hnd as (Hg & Hnd & Hdis).
    pose proof (Hplural h g (or_introl eq_refl)) as Hlen.
    pose proof (sorted_length (get_file_age fs) g) as Hslen.
    destruct (sorted (get_file_age fs) g) as [| k [| n newer]] eqn:Hs;
      cbn [length] in Hslen; try lia.
    assert (Hkg : In k g)
      by (apply (sorted_In (get_file_age fs)); rewrite Hs; now left).
    assert (Hgd : group_decisions fs g
                  = map (fun n : Path => (n, k, size_on_disk fs k))
                        (n :: newer))
      by (unfold group_decisions; now rewrite Hs).
    rewrite Hgd, example_fold_new_group.
    + rewrite IH.
      * cbn [hd tl]. now rewrite <- app_assoc.
      * exact Hnd.
      * intros h' g' Hin. apply (Hplural h' g'). now right.
      * intros k' h' g' Hk' Hin. rewrite map_app in Hk'.
        apply in_app_or in Hk'. destruct Hk' as [Hk' | [<- | []]].
        -- apply (Hfresh k' h' g' Hk'). now right.
        -- cbn [fst]. intros Hkg'. apply (Hdis k Hkg).
           apply in_concat. exists g'. split; [| exact Hkg'].
           apply in_map_iff. now exists (h', g').
    + intros Hk. apply (Hfresh k h g Hk); [now left | exact Hkg].
Qed.

(** X20. The examples that [print_statistics] shows are the groups of the
    scan: the dictionary it rebuilds from the plan has, for every
    reported group and in the same order, the keep file with the other
    members in the order of their age; it shows the first five and
    announces as more the number of groups beyond five. *)
Theorem examples_are_the_groups (rt : runtime) (w : world) (t : tree)
  (root_dir : string) (skip_patterns : list string) (workers : option Z)
  (fs : filesystem) (d : dict string (list Path)) (plan : list decision)
  (stats : statistics) :
  NoDup (all_files root_dir t) ->
  find_duplicates rt w t root_dir skip_patterns workers = Ok d ->
  analyze_duplicates fs d = Ok (plan, stats) ->
  example_groups plan
  = map (fun item =>
           (hd EmptyString (sorted (get_file_age fs) (snd item)),
            tl (sorted (get_file_age fs) (snd item)))) d
  /\ Z.of_nat (length (example_groups plan)) = groups stats
  /\ snd (printed_examples plan)
     = if 5 <? groups stats then Some (groups stats - 5) else None.
Proof.
  intros Htree Hfd Hplan.
  assert (Hgroups : example_groups plan
                    = map (fun item =>
                             (hd EmptyString
                                 (sorted (get_file_age fs) (snd item)),
                              tl (sorted (get_file_age fs) (snd item)))) d).
  { destruct (plan_of_groups _ _ _ _ Hplan) as [-> _].
    apply find_duplicates_Ok in Hfd. subst d. unfold example_groups.
    rewrite (example_fold_groups fs); [reflexivity | | |].
    - apply funnel_NoDup. now apply visited_in_all.
    - intros h g Hin. now apply funnel_several in Hin.
    - intros k h g []. }
  assert (Hlen : Z.of_nat (length (example_groups plan)) = groups stats).
  { rewrite Hgroups, length_map. unfold analyze_duplicates in Hplan.
    apply analyze_loop_Ok in Hplan. destruct Hplan as (_ & _ & Hg & _).
    cbn in Hg. now rewrite Hg. }
  split; [exact Hgroups |]. split; [exact Hlen |].
  unfold printed_examples. cbn [snd]. rewrite <- Hlen.
  destruct (5 <? length (example_groups plan))%nat eqn:Hfive.
  - apply Nat.ltb_lt in Hfive.
    destruct (5 <? Z.of_nat (length (example_groups plan))) eqn:Hz;
      [reflexivity | apply Z.ltb_ge in Hz; lia].
  - apply Nat.ltb_ge in Hfive.
    destruct (5 <? Z.of_nat (length (example_groups plan))) eqn:Hz;
      [apply Z.ltb_lt in Hz; lia | reflexivity].
Qed.

Lemma examples_are_the_groups_witness :
  example_groups sample_plan
  = [("/r/b", ["/r/sub/d"; "/r/a"])]%string
  /\ Z.of_nat (length (example_groups sample_plan)) = groups sample_stats
  /\ snd (printed_examples sample_plan) = None.
Proof.
  apply (examples_are_the_groups
           four_cores (steady sample_disk) sample_tree "/r"%string
           ["themes"%string] None sample_disk sample_groups sample_plan
           sample_stats).
  - vm_compute. repeat constructor; simpl; intuition discriminate.
  - vm_compute. reflexivity.
  - vm_compute. reflexivity.
Defined.

(** ** What can be deleted at all *)

Lemma plan_delete_targets_incl (fs : filesystem)
  (d : dict string (list Path)) (plan : list decision) (stats : statistics)
  (p : Path) :
  analyze_duplicates fs d = Ok (plan, stats) ->
  In p (map delete_target plan) -> In p (concat (values d)).
Proof.
  intros H Hp. destruct (plan_of_groups _ _ _ _ H) as [-> _].
  rewrite map_flat_map in Hp. apply in_flat_map in Hp.
  destruct Hp as ([h g] & Hg & Hp). cbn [snd] in Hp.
  rewrite group_decisions_delete_targets in Hp.
  apply in_concat. exists g. split; [apply in_map_iff; now exists (h, g) |].
  apply (sorted_In (get_file_age fs)).
  destruct (sorted (get_file_age fs) g); [destruct Hp | now right].
Qed.

(** X21. Scan, plan and deletion together remove no file that the walk
    did not come across; in a tree where no path names two files, that
    holds for every file in or below a directory whose basename is in the
    skip-set. *)
Theorem unvisited_files_never_deleted (rt : runtime) (w : world) (t : tree)
  (root_dir : string) (skip_patterns : list string) (workers : option Z)
  (fs : filesystem) (d : dict string (list Path)) (plan : list decision)
  (stats : statistics) (TRASH_AVAILABLE : bool) (locked : Path -> bool)
  (v v' : volume) (counts : deletion_count) :
  find_duplicates rt w t root_dir skip_patterns workers = Ok d ->
  analyze_duplicates fs d = Ok (plan, stats) ->
  delete_files rt TRASH_AVAILABLE locked plan v = (v', counts) ->
  (forall q, ~ In q (visited_files skip_patterns root_dir t) ->
             In q (present v) -> In q (present v'))
  /\ (NoDup (all_files root_dir t) ->
      forall p dir q,
        subdir_at root_dir t p dir ->
        In (basename p) skip_patterns ->
        In q (all_files p dir) ->
        In q (present v) -> In q (present v')).
Proof.
  intros Hfd Hplan Hdel.
  assert (Hgen : forall q, ~ In q (visited_files skip_patterns root_dir t) ->
                           In q (present v) -> In q (present v')).
  { intros q Hq Hpresent. rewrite delete_files_loop in Hdel.
    destruct counts as [[deleted failed] freed].
    apply delete_loop_spec in Hdel.
    destruct Hdel as (_ & _ & _ & _ & Hframe & _).
    apply Hframe; [exact Hpresent |]. intros Hin. apply Hq.
    apply (plan_delete_targets_incl _ _ _ _ _ Hplan) in Hin.
    apply find_duplicates_Ok in Hfd. subst d.
    now apply funnel_members, quick_candidates_incl, size_candidates_incl
      in Hin. }
  split; [exact Hgen |].
  intros Hnd p dir q Hsub Hskip Hq. apply Hgen.
  now apply (skipped_not_visited skip_patterns root_dir t p dir q).
Qed.

Lemma unvisited_files_never_deleted_witness :
  (forall q, ~ In q (visited_files ["themes"%string] "/r" sample_tree) ->
             In q ["/r/a"; "/r/b"; "/r/themes/x"; "/r/sub/d"]%string ->
             In q ["/r/b"; "/r/themes/x"]%string)
  /\ (NoDup (all_files "/r" sample_tree) ->
      forall p dir q,
        subdir_at "/r" sample_tree p dir ->
        In (basename p) ["themes"%string] ->
        In q (all_files p dir) ->
        In q ["/r/a"; "/r/b"; "/r/themes/x"; "/r/sub/d"]%string ->
        In q ["/r/b"; "/r/themes/x"]%string).
Proof.
  apply (unvisited_files_never_deleted
                  four_cores (steady sample_disk) sample_tree "/r"%string
                  ["themes"%string] None sample_disk sample_groups
                  sample_plan sample_stats false nothing_locked
                  {| present := ["/r/a"; "/r/b"; "/r/themes/x";
                                 "/r/sub/d"]%string;
                     recycle_bin := [] |}
                  {| present := ["/r/b"; "/r/themes/x"]%string;
                     recycle_bin := [] |} (2, 0, 10)
                  eq_refl eq_refl eq_refl).
Defined.

(** ** The order of the traversal *)

Lemma filter_length_perm {A} (f : A -> bool) (l l' : list A) :
  Permutation l l' -> length (filter f l) = length (filter f l').
Proof.
  induction 1 as [| x l l' _ IH | x y l | l l' l'' _ IH1 _ IH2]; simpl.
  - reflexivity.
  - destruct (f x); simpl; now rewrite IH.
  - destruct (f x), (f y); reflexivity.
  - now rewrite IH1.
Qed.

Lemma in_flatten_group_by_iff {K A} `{EqDec K} (key : A -> option K)
  (l : list A) (x : A) :
  In x (flatten_several (group_by key l))
  <-> In x l
      /\ exists k, key x = Some k
                   /\ (2 <= length (filter (has_key key k) l))%nat.
Proof.
  split.
  - unfold flatten_several. intros Hx. apply in_concat in Hx.
    destruct Hx as (vs & Hvs & Hx). apply filter_In in Hvs.
    destruct Hvs as [Hvs Hsev]. apply in_map_iff in Hvs.
    destruct Hvs as ([k vs'] & <- & Hentry). cbn [snd] in *.
    apply group_by_In in Hentry. subst vs'. apply filter_In in Hx.
    destruct Hx as [Hx Hk]. split; [exact Hx |]. exists k.
    split; [now apply has_key_true |].
    unfold several in Hsev. apply Nat.ltb_lt in Hsev. lia.
  - intros (Hx & k & Hk & Hlen). unfold flatten_several. apply in_concat.
    exists (dd_get k (group_by key l)). rewrite group_by_get. split.
    + apply filter_In. split.
      * apply in_map_iff. exists (k, filter (has_key key k) l).
        split; [reflexivity |]. rewrite <- group_by_get.
        apply dd_get_entry. rewrite group_by_get. intros Hnil.
        rewrite Hnil in Hlen. simpl in Hlen. lia.
      * unfold several. apply Nat.ltb_lt. lia.
    + apply filter_In. split; [exact Hx | now apply has_key_true].
Qed.

Lemma flatten_group_by_perm {K A} `{EqDec K} (key : A -> option K)
  (l l' : list A) :
  NoDup l -> Permutation l l' ->
  NoDup (flatten_several (group_by key l))
  /\ Permutation (flatten_several (group_by key l))
                 (flatten_several (group_by key l')).
Proof.
  intros Hnd Hperm.
  assert (Hnd1 : NoDup (flatten_several (group_by key l)))
    by now apply flatten_several_NoDup, group_by_NoDup.
  split; [exact Hnd1 |]. apply NoDup_Permutation; [exact Hnd1 | |].
  - apply flatten_several_NoDup, group_by_NoDup.
    now apply (Permutation_NoDup Hperm).
  - intros x. rewrite !in_flatten_group_by_iff. split.
    + intros (Hx & k & Hk & Hlen). split.
      * now apply (Permutation_in _ Hperm).
      * exists k. now rewrite <- (filter_length_perm _ _ _ Hperm).
    + intros (Hx & k & Hk & Hlen). split.
      * now apply (Permutation_in _ (Permutation_sym Hperm)).
      * exists k. now rewrite (filter_length_perm _ _ _ Hperm).
Qed.

Lemma funnel_member_iff (w : world) (skip_patterns : list string)
  (root_dir : string) (t : tree) (h : string) (p : Path) :
  (exists g, In (h, g) (funnel w skip_patterns root_dir t) /\ In p g)
  <-> In p (quick_candidates w skip_patterns root_dir t)
      /\ full_key (at_full w) p = Some h
      /\ (2 <= length (filter (has_key (full_key (at_full w)) h)
                              (quick_candidates w skip_patterns root_dir t)))%nat.
Proof.
  unfold funnel. split.
  - intros (g & Hin & Hp). apply filter_In in Hin. destruct Hin as [Hin Hs].
    apply group_by_In in Hin. subst g. apply filter_In in Hp.
    destruct Hp as [Hp Hk]. split; [exact Hp |].
    split; [now apply has_key_true |].
    unfold several in Hs. cbn [snd] in Hs. apply Nat.ltb_lt in Hs. lia.
  - intros (Hp & Hk & Hlen).
    exists (filter (has_key (full_key (at_full w)) h)
                   (quick_candidates w skip_patterns root_dir t)).
    split.
    + apply filter_In. split.
      * rewrite <- group_by_get. apply dd_get_entry. rewrite group_by_get.
        intros Hnil. rewrite Hnil in Hlen. simpl in Hlen. lia.
      * unfold several. cbn [snd]. apply Nat.ltb_lt. lia.
    + apply filter_In. split; [exact Hp | now apply has_key_true].
Qed.

(** X22. Which files are reported together does not depend on the order
    in which the walk comes across them: two scans of the same world that
    visit the same files, each once, in different orders, put the same
    files under the same digests. *)
Theorem traversal_order_irrelevant (rt rt' : runtime) (w : world)
  (t t' : tree) (root_dir root_dir' : string)
  (skip_patterns skip_patterns' : list string) (workers workers' : option Z)
  (d d' : dict string (list Path)) :
  NoDup (visited_files skip_patterns root_dir t) ->
  Permutation (visited_files skip_patterns root_dir t)
              (visited_files skip_patterns' root_dir' t') ->
  find_duplicates rt w t root_dir skip_patterns workers = Ok d ->
  find_duplicates rt' w t' root_dir' skip_patterns' workers' = Ok d' ->
  forall h p,
    (exists g, In (h, g) d /\ In p g)
    <-> (exists g', In (h, g') d' /\ In p g').
Proof.
  intros Hnd Hperm Hfd Hfd' h p.
  apply find_duplicates_Ok in Hfd, Hfd'. subst d d'.
  rewrite !funnel_member_iff.
  assert (Hc2 : Permutation
                  (quick_candidates w skip_patterns root_dir t)
                  (quick_candidates w skip_patterns' root_dir' t')).
  { unfold quick_candidates, size_candidates.
    destruct (flatten_group_by_perm (size_key (at_index w)) _ _ Hnd Hperm)
      as [Hnd1 Hperm1].
    now apply flatten_group_by_perm. }
  rewrite (filter_length_perm _ _ _ Hc2). split.
  - intros (Hp & Hrest). split; [| exact Hrest].
    now apply (Permutation_in _ Hc2).
  - intros (Hp & Hrest). split; [| exact Hrest].
    now apply (Permutation_in _ (Permutation_sym Hc2)).
Qed.

Lemma traversal_order_irrelevant_witness :
  (exists g, In ("5d41402abc4b2a76b9719d911017c592"%string, g) pair_groups
             /\ In "/r/a"%string g)
  <-> (exists g', In ("5d41402abc4b2a76b9719d911017c592"%string, g')
                     [("5d41402abc4b2a76b9719d911017c592",
                       ["/r/b"; "/r/a"])]%string
                  /\ In "/r/a"%string g').
Proof.
  refine (traversal_order_irrelevant
            four_cores one_core (steady pair_disk) pair_tree
            pair_tree_reversed "/r"%string "/r"%string [] [] None (Some 1)
            _ _ _ _ _ _ _ _).
  - vm_compute. repeat constructor; simpl; intuition discriminate.
  - vm_compute. apply perm_swap.
  - reflexivity.
  - reflexivity.
Defined.

(** ** Ties *)

Lemma precedes_filter {A} (f : A -> bool) (x y : A) (l : list A) :
  precedes x y l -> f x = true -> f y = true -> precedes x y (filter f l).
Proof.
  intros (l1 & l2 & l3 & ->) Hx Hy.
  exists (filter f l1), (filter f l2), (filter f l3).
  rewrite filter_app. cbn [filter]. rewrite Hx, filter_app. cbn [filter].
  now rewrite Hy.
Qed.

Lemma filter_split {A} (f : A -> bool) (x : A) (r : list A) :
  forall l a,
    filter f l = a ++ x :: r ->
    exists l1 l2, l = l1 ++ x :: l2 /\ filter f l1 = a /\ filter f l2 = r.
Proof.
  induction l as [| z l IH]; intros a Hl; cbn [filter] in Hl.
  - destruct a; discriminate.
  - destruct (f z) eqn:Hz.
    + destruct a as [| a0 a].
      * cbn [app] in Hl. inversion Hl; subst. now exists [], l.
      * cbn [app] in Hl. inversion Hl; subst.
        destruct (IH a H1) as (l1 & l2 & -> & <- & <-).
        exists (a0 :: l1), l2. cbn [filter app]. now rewrite Hz.
    + destruct (IH a Hl) as (l1 & l2 & -> & <- & <-).
      exists (z :: l1), l2. cbn [filter app]. now rewrite Hz.
Qed.

Lemma precedes_filter_inv {A} (f : A -> bool) (x y : A) (l : list A) :
  precedes x y (filter f l) -> precedes x y l.
Proof.
  intros (a & b & c & Hl).
  destruct (filter_split f x _ l a Hl) as (l1 & m & -> & _ & Hm).
  destruct (filter_split f y _ m b Hm) as (l2 & l3 & -> & _ & _).
  now exists l1, l2, l3.
Qed.

(** The sort leaves two elements of one age in the order it found them
    in. *)
Lemma sorted_precedes {A} (key : A -> age) (x y : A) (l : list A) :
  precedes x y l -> key x = key y -> precedes x y (sorted key l).
Proof.
  intros Hl Hkey.
  apply (precedes_filter_inv (fun z => age_eqb (key z) (key x))).
  rewrite sorted_stable.
  apply precedes_filter; [exact Hl | |]; apply age_eqb_eq; congruence.
Qed.

(** C9. On an unchanged tree of regular files, a reported group of
    byte-identical files lists its members in the order in which the walk
    came across them, and the plan made from it keeps that order among
    the members of one modification time: of two such members, the one
    the walk came across later is a delete entry of the plan, and the
    earlier one is either the file kept or a delete entry further up in
    the plan.  Parallel hashing and the two regroupings do not reorder the
    members, and the planner's sort is stable. *)
Theorem tied_members_keep_discovery_order (rt : runtime)
  (fs fs' : filesystem) (t : tree) (root_dir : string)
  (skip_patterns : list string) (workers : option Z)
  (d : dict string (list Path)) (plan : list decision) (stats : statistics)
  (h : string) (g : list Path) (p q : Path) :
  regular_files fs (visited_files skip_patterns root_dir t) ->
  byte_identical fs h (visited_files skip_patterns root_dir t) ->
  find_duplicates rt (steady fs) t root_dir skip_patterns workers = Ok d ->
  analyze_duplicates fs' d = Ok (plan, stats) ->
  In (h, g) d ->
  In p g -> In q g ->
  precedes p q (visited_files skip_patterns root_dir t) ->
  get_file_age fs' p = get_file_age fs' q ->
  g = filter (has_key (full_key fs) h)
             (visited_files skip_patterns root_dir t)
  /\ exists k,
      keep_file fs' g = Some k
      /\ In (q, k, size_on_disk fs' k) plan
      /\ (p = k
          \/ precedes (p, k, size_on_disk fs' k) (q, k, size_on_disk fs' k)
                      plan).
Proof.
  intros Hreg Hfaith Hfd Hplan Hin Hp Hq Hprec Hage.
  assert (Hg : g = filter (has_key (full_key fs) h)
                          (visited_files skip_patterns root_dir t)).
  { apply find_duplicates_Ok in Hfd. rewrite Hfd in Hin.
    now apply group_in_discovery_order in Hin. }
  split; [exact Hg |].
  assert (Hsorted : precedes p q (sorted (get_file_age fs') g)).
  { apply sorted_precedes; [| exact Hage]. rewrite Hg in Hp, Hq |- *.
    apply filter_In in Hp, Hq. now apply precedes_filter. }
  destruct (plan_of_groups _ _ _ _ Hplan) as [-> _].
  destruct (in_split _ _ Hin) as (d1 & d2 & ->).
  rewrite flat_map_app. cbn [flat_map snd].
  destruct Hsorted as (s1 & s2 & s3 & Hs).
  assert (Hk : keep_file fs' g = hd_error (s1 ++ p :: s2 ++ q :: s3))
    by (unfold keep_file; now rewrite Hs).
  assert (Hgd : group_decisions fs' g
                = match s1 ++ p :: s2 ++ q :: s3 with
                  | [] => []
                  | k :: newer =>
                      map (fun n : Path => (n, k, size_on_disk fs' k)) newer
                  end)
    by (unfold group_decisions; now rewrite Hs).
  rewrite Hk, Hgd. clear Hk Hgd Hs.
  destruct s1 as [| k s1]; cbn [app hd_error].
  - exists p. split; [reflexivity |]. split; [| now left].
    apply in_or_app. right. apply in_or_app. left.
    apply in_map_iff. exists q. split; [reflexivity |].
    apply in_or_app. right. now left.
  - exists k. split; [reflexivity |]. split.
    + apply in_or_app. right. apply in_or_app. left.
      apply in_map_iff. exists q. split; [reflexivity |].
      apply in_or_app. right. right. apply in_or_app. right. now left.
    + right.
      exists (flat_map (fun item => group_decisions fs' (snd item)) d1
              ++ map (fun n : Path => (n, k, size_on_disk fs' k)) s1),
        (map (fun n : Path => (n, k, size_on_disk fs' k)) s2),
        (map (fun n : Path => (n, k, size_on_disk fs' k)) s3
         ++ flat_map (fun item => group_decisions fs' (snd item)) d2).
      rewrite !map_app. cbn [map]. rewrite !map_app. cbn [map].
      rewrite <- !app_assoc. cbn [app]. rewrite <- !app_assoc.
      reflexivity.
Qed.

Lemma tied_members_keep_discovery_order_witness :
  ["/r/a"; "/r/b"; "/r/sub/d"]%string
  = filter (has_key (full_key sample_disk)
                    "5d41402abc4b2a76b9719d911017c592"%string)
           (visited_files ["themes"%string] "/r" sample_tree)
  /\ exists k,
      keep_file sample_disk ["/r/a"; "/r/b"; "/r/sub/d"]%string = Some k
      /\ In ("/r/sub/d"%string, k, size_on_disk sample_disk k) sample_plan
      /\ ("/r/b"%string = k
          \/ precedes ("/r/b"%string, k, size_on_disk sample_disk k)
                      ("/r/sub/d"%string, k, size_on_disk sample_disk k)
                      sample_plan).
Proof.
  apply (tied_members_keep_discovery_order
           four_cores sample_disk sample_disk sample_tree "/r"%string
           ["themes"%string] None sample_groups sample_plan sample_stats
           "5d41402abc4b2a76b9719d911017c592"%string
           ["/r/a"; "/r/b"; "/r/sub/d"]%string
           "/r/b"%string "/r/sub/d"%string).
  - apply disk_regular.
  - exact sample_byte_identical.
  - vm_compute. reflexivity.
  - vm_compute. reflexivity.
  - now left.
  - right. now left.
  - right. right. now left.
  - exists ["/r/a"%string], ["/r/c"%string], ["/r/sub/e"%string].
    vm_compute. reflexivity.
  - vm_compute. reflexivity.
Defined.
